(** * cpuloadgen: a programmable CPU load generator

    A shallow embedding of [cpuloadgen.c] and the properties of its
    duty-cycle loop, its workload burst, its per-thread entry point and
    the thread fan-out of [main].

    Conventions of the embedding.
    - [unsigned int] is a [Z] in [0, 2^32) with the wrap-around written
      out ([to_uint]); [int] and [long int] are plain [Z] values that the
      conversions reduce.
    - [double] has two models.  [Loadgen] keeps the operators of the
      source one for one over the exact rationals [Q] and serves for what
      does not depend on rounding (signs, orders, the case of no
      deadline).  [Binary64] runs the same code over IEEE-754 binary64,
      Rocq's primitive floats, and serves for the values the program
      really computes: every operation of the source is rounded to
      binary64 on its own, to nearest with ties to even, in the order
      the source writes them (no extended precision and no fused
      multiply-add).
    - the clocks ([gettimeofday], [dtime]) are inputs: a run of the loop
      is driven by the list of readings the environment returns.
    - what the code does to the outside (bursts, sleeps, clock reads) is
      recorded as a list of events. *)

From Stdlib Require Import ZArith QArith Qround List Bool Lia Lqa Permutation.
From Stdlib Require Import PrimFloat FloatOps SpecFloat.
Import ListNotations.

Open Scope Z_scope.

(** ** C scalar types *)

Module CTypes.

Definition UINT_MAX : Z := 4294967295.
Definition INT_MAX : Z := 2147483647.

(** Conversion of an integer value to [unsigned int] (C11 6.3.1.3:
    reduction modulo [UINT_MAX + 1]). *)
Definition to_uint (z : Z) : Z := z mod (UINT_MAX + 1).

Definition is_uint (z : Z) : Prop := 0 <= z <= UINT_MAX.

(** [(double) u] for an [unsigned int]. *)
Definition double_of_uint (u : Z) : Q := inject_Z u.

(** Integral part of a rational, rounding toward zero. *)
Definition Qtrunc (x : Q) : Z := Z.quot (Qnum x) (Zpos (Qden x)).

(** [(unsigned int) d] for a [double] (C11 6.3.1.4): the fractional
    part is discarded; when the integral part is not an [unsigned int]
    the conversion is undefined, which is [None] here. *)
Definition uint_of_double (d : Q) : option Z :=
  let t := Qtrunc d in
  if (0 <=? t) && (t <=? UINT_MAX) then Some t else None.

(** [struct timeval]. *)
Record timeval : Type := mk_timeval { tv_sec : Z; tv_usec : Z }.

(** [(double) tv.tv_sec + ((double) tv.tv_usec * 1.0e-6)], without
    rounding: the instant that the reading stands for.  What the code
    holds in its [double] is [Binary64.timeval_seconds]. *)
Definition timeval_seconds (tv : timeval) : Q :=
  (inject_Z (tv_sec tv) + inject_Z (tv_usec tv) * (1 # 1000000))%Q.

(** Array store [a[n] = v] on an array held as a list; the length is
    fixed by the allocation, an index past the end stores nothing. *)
Fixpoint store (a : list Z) (n : nat) (v : Z) : list Z :=
  match a, n with
  | [], _ => []
  | _ :: a', O => v :: a'
  | x :: a', S n' => x :: store a' n' v
  end.

End CTypes.

Import CTypes.

(** ** The duty-cycle loop of [loadgen] *)

Module Loadgen.

(** What one pass of a loop reads from the clocks: the two [dtime()]
    values around the burst (unused in the 100% loop) and the
    [gettimeofday] value of the deadline check.  [dtime] is declared
    [extern] and defined outside [cpuloadgen.c]: what it returns is an
    input here, like the values of [gettimeofday]. *)
Record reading : Type := mk_reading {
  workload_start_time : Q;
  workload_end_time : Q;
  tv_cpuloadgen : timeval
}.

Inductive event : Type :=
| EvPrintf (load : Z)
| EvGettimeofday
| EvDtime
| EvWorkload (iterations : Z)
| EvUsleep (usec : option Z).

(** Result of running a loop against a finite list of readings:
    the events issued, the number of passes made, and whether the
    [break] was taken ([false]: the readings ran out with the loop
    still going). *)
Record run : Type := mk_run {
  trace : list event;
  iterations : nat;
  exited : bool
}.

(** [active_time_us = (workload_end_time - workload_start_time) * 1.0e6] *)
Definition active_time_us (r : reading) : Q :=
  ((workload_end_time r - workload_start_time r) * inject_Z 1000000)%Q.

(** [total_time_us = active_time_us * (100.0 / (double) (load + 1))];
    [load + 1] is [unsigned int] arithmetic.  Without rounding; the
    value the code computes is [Binary64.total_time_us]. *)
Definition total_time_us (active : Q) (load : Z) : Q :=
  (active * (inject_Z 100 / double_of_uint (to_uint (load + 1))))%Q.

(** [idle_time_us = total_time_us - active_time_us] *)
Definition idle_time_us (active : Q) (load : Z) : Q :=
  (total_time_us active load - active)%Q.

(** [(duration != 0) && (time_us - loadgen_start_time_us) >= duration],
    on the instants themselves; the test on the rounded values, which
    is the one the code makes, is [Binary64.deadline_reached]. *)
Definition deadline_reached (duration : Z) (start time_us : Q) : bool :=
  negb (duration =? 0)
  && Qle_bool (double_of_uint duration) (time_us - start)%Q.

(** Events of one pass of the [load != 100] loop. *)
Definition partial_pass (load : Z) (r : reading) : list event :=
  [ EvDtime; EvWorkload 50000; EvDtime;
    EvUsleep (uint_of_double (idle_time_us (active_time_us r) load));
    EvGettimeofday ].

(** Events of one pass of the [load == 100] loop. *)
Definition full_pass : list event :=
  [ EvWorkload 1000000; EvGettimeofday ].

(** The [while (1)] of the [load != 100] branch.  [usleep] returns
    whatever it was handed, and the loop goes on to its deadline check. *)
Fixpoint partial_loop (load duration : Z) (start : Q) (env : list reading)
  : run :=
  match env with
  | [] => mk_run [] 0 false
  | r :: env' =>
      let evs := partial_pass load r in
      if deadline_reached duration start (timeval_seconds (tv_cpuloadgen r))
      then mk_run evs 1 true
      else
        let rest := partial_loop load duration start env' in
        mk_run (evs ++ trace rest) (S (iterations rest)) (exited rest)
  end.

(** The [while (1)] of the [else] branch. *)
Fixpoint full_loop (duration : Z) (start : Q) (env : list reading) : run :=
  match env with
  | [] => mk_run [] 0 false
  | r :: env' =>
      if deadline_reached duration start (timeval_seconds (tv_cpuloadgen r))
      then mk_run full_pass 1 true
      else
        let rest := full_loop duration start env' in
        mk_run (full_pass ++ trace rest) (S (iterations rest)) (exited rest)
  end.

(** Events of one pass of the loop that [load] selects. *)
Definition pass_events (load : Z) (r : reading) : list event :=
  if negb (load =? 100) then partial_pass load r else full_pass.

(** The loop selected by [if (load != 100)]. *)
Definition duty_loop (load duration : Z) (start : Q) (env : list reading)
  : run :=
  if negb (load =? 100)
  then partial_loop load duration start env
  else full_loop duration start env.

(** [loadgen(cpu, load, duration)] (built without [CPU_AFFINITY], as the
    source has it): the start message, the start reading, then the
    loop.  [tv_cpuloadgen_start] is the first [gettimeofday] value. *)
Definition loadgen (cpu load duration : Z)
  (tv_cpuloadgen_start : timeval) (env : list reading) : run :=
  let loop := duty_loop load duration
                (timeval_seconds tv_cpuloadgen_start) env in
  mk_run (EvPrintf load :: EvGettimeofday :: trace loop)
         (iterations loop) (exited loop).

(** The arguments handed to [usleep] in a trace, in order. *)
Fixpoint usleep_args (t : list event) : list (option Z) :=
  match t with
  | [] => []
  | EvUsleep a :: t' => a :: usleep_args t'
  | _ :: t' => usleep_args t'
  end.


End Loadgen.

(** ** The duty-cycle loop of [loadgen] in binary64 *)

Module Binary64.

Import Loadgen.

(** [(double) z] for an integer ([unsigned int], [time_t],
    [suseconds_t]): the nearest binary64 value, ties to even. *)
Definition double_of_Z (z : Z) : float :=
  SF2Prim (binary_normalize prec emax z 0 false).

(** The constant [1.0e-6] as binary64 holds it. *)
Definition micro : float := 0x1.0c6f7a0b5ed8dp-20%float.

(** The constant [1.0e6]. *)
Definition mega : float := 1000000%float.

(** Integral part of a [double], rounding toward zero; [None] for an
    infinity or a NaN. *)
Definition trunc_double (d : float) : option Z :=
  match Prim2SF d with
  | S754_zero _ => Some 0
  | S754_finite s m e =>
      let mag := if 0 <=? e then Zpos m * 2 ^ e else Zpos m / 2 ^ (- e) in
      Some (if s then - mag else mag)
  | S754_infinity _ | S754_nan => None
  end.

(** [(unsigned int) d] (C11 6.3.1.4): the integral part when it is an
    [unsigned int], undefined ([None]) otherwise. *)
Definition uint_of_double (d : float) : option Z :=
  match trunc_double d with
  | Some t => if (0 <=? t) && (t <=? UINT_MAX) then Some t else None
  | None => None
  end.

(** [(double) tv.tv_sec + ((double) tv.tv_usec * 1.0e-6)] *)
Definition timeval_seconds (tv : timeval) : float :=
  (double_of_Z (tv_sec tv) + double_of_Z (tv_usec tv) * micro)%float.

(** What one pass reads from the clocks: the two values of [dtime()]
    around the burst and the [gettimeofday] value of the deadline
    check. *)
Record reading : Type := mk_reading {
  workload_start_time : float;
  workload_end_time : float;
  tv_cpuloadgen : timeval
}.

(** [active_time_us = (workload_end_time - workload_start_time) * 1.0e6] *)
Definition active_time_us (r : reading) : float :=
  ((workload_end_time r - workload_start_time r) * mega)%float.

(** [total_time_us = active_time_us * (100.0 / (double) (load + 1))] *)
Definition total_time_us (active : float) (load : Z) : float :=
  (active * (100 / double_of_Z (to_uint (load + 1))))%float.

(** [idle_time_us = total_time_us - active_time_us] *)
Definition idle_time_us (active : float) (load : Z) : float :=
  (total_time_us active load - active)%float.

(** [(duration != 0) && (time_us - loadgen_start_time_us) >= duration] *)
Definition deadline_reached (duration : Z) (start time_us : float) : bool :=
  negb (duration =? 0)
  && (double_of_Z duration <=? time_us - start)%float.

(** Events of one pass of the [load != 100] loop. *)
Definition partial_pass (load : Z) (r : reading) : list event :=
  [ EvDtime; EvWorkload 50000; EvDtime;
    EvUsleep (uint_of_double (idle_time_us (active_time_us r) load));
    EvGettimeofday ].

(** The [while (1)] of the [load != 100] branch. *)
Fixpoint partial_loop (load duration : Z) (start : float) (env : list reading)
  : run :=
  match env with
  | [] => mk_run [] 0 false
  | r :: env' =>
      let evs := partial_pass load r in
      if deadline_reached duration start (timeval_seconds (tv_cpuloadgen r))
      then mk_run evs 1 true
      else
        let rest := partial_loop load duration start env' in
        mk_run (evs ++ trace rest) (S (iterations rest)) (exited rest)
  end.

(** The [while (1)] of the [else] branch. *)
Fixpoint full_loop (duration : Z) (start : float) (env : list reading) : run :=
  match env with
  | [] => mk_run [] 0 false
  | r :: env' =>
      if deadline_reached duration start (timeval_seconds (tv_cpuloadgen r))
      then mk_run full_pass 1 true
      else
        let rest := full_loop duration start env' in
        mk_run (full_pass ++ trace rest) (S (iterations rest)) (exited rest)
  end.

(** Events of one pass of the loop that [load] selects. *)
Definition pass_events (load : Z) (r : reading) : list event :=
  if negb (load =? 100) then partial_pass load r else full_pass.

(** The loop selected by [if (load != 100)]. *)
Definition duty_loop (load duration : Z) (start : float) (env : list reading)
  : run :=
  if negb (load =? 100)
  then partial_loop load duration start env
  else full_loop duration start env.

(** [loadgen(cpu, load, duration)]. *)
Definition loadgen (cpu load duration : Z)
  (tv_cpuloadgen_start : timeval) (env : list reading) : run :=
  let loop := duty_loop load duration
                (timeval_seconds tv_cpuloadgen_start) env in
  mk_run (EvPrintf load :: EvGettimeofday :: trace loop)
         (iterations loop) (exited loop).

End Binary64.

(** ** The burst: [workload] *)

Module Workload.

Section WithRand.

(** [rand()] belongs to the C library: its hidden generator state is
    [seed], and a call returns a value and the next state. *)
Variable seed : Type.
Variable rand : seed -> Z * seed.

(** [while (iterations-- > 0) { sqrt(rand()); }]

    The test reads [iterations] and the post-decrement wraps as
    [unsigned int] does.  The result is the list of values handed to
    [sqrt], in order, and the generator state on return; [None] is
    fuel exhausted with the loop still running. *)
Fixpoint workload_loop (fuel : nat) (iterations : Z) (st : seed)
  : option (list Z * seed) :=
  match fuel with
  | O => None
  | S fuel' =>
      let test := 0 <? iterations in
      let iterations' := to_uint (iterations - 1) in
      if test then
        let (v, st') := rand st in
        match workload_loop fuel' iterations' st' with
        | Some (vs, st'') => Some (v :: vs, st'')
        | None => None
        end
      else Some ([], st)
  end.

(** [n] successive calls of [rand]: the values and the final state. *)
Fixpoint draws (n : nat) (st : seed) : list Z * seed :=
  match n with
  | O => ([], st)
  | S n' =>
      let (v, st') := rand st in
      let (vs, st'') := draws n' st' in
      (v :: vs, st'')
  end.

End WithRand.

(** The portable generator that the C standard prints as a sample
    implementation of [rand] (C11 7.22.2.2), on a 64-bit
    [unsigned long]:
    [next = next * 1103515245 + 12345;
     return (unsigned int)(next/65536) % 32768;] *)
Definition iso_rand (next : Z) : Z * Z :=
  let next' := (next * 1103515245 + 12345) mod 2 ^ 64 in
  (to_uint (next' / 65536) mod 32768, next').

End Workload.

(** ** The globals, argument handling and [thread_loadgen] *)

Module Runner.

(** [cpu_count], [cpuloads] and [duration] ([long int]). *)
Record globals : Type := mk_globals {
  cpu_count : Z;
  cpuloads : list Z;
  duration : Z
}.

(** A command-line word after [sscanf]: ["cpu%d=%d"] with both fields
    read, ["duration=%ld"] with its field read, or anything else. *)
Inductive arg : Type :=
| ArgCpu (n load : Z)
| ArgDuration (duration2 : Z)
| ArgOther.

Inductive exit_code : Type := EINVAL.

(** The [for (i = 1; i < argc; i++)] loop of [main]. *)
Fixpoint parse_args (args : list arg) (g : globals) : globals + exit_code :=
  match args with
  | [] => inl g
  | ArgCpu n load :: rest =>
      if (n <? 0) || (cpu_count g <=? n) || (load <? 1) || (100 <? load)
      then inr EINVAL
      else if negb (nth (Z.to_nat n) (cpuloads g) (-1) =? -1)
      then inr EINVAL
      else parse_args rest
             (mk_globals (cpu_count g)
                (store (cpuloads g) (Z.to_nat n) load) (duration g))
  | ArgDuration duration2 :: rest =>
      if duration2 <? 1 then inr EINVAL
      else if negb (duration g =? -1) then inr EINVAL
      else parse_args rest
             (mk_globals (cpu_count g) (cpuloads g) duration2)
  | ArgOther :: rest => inr EINVAL
  end.

(** "Initialize variables" in [main]: with no argument every core gets
    100; otherwise every core starts at -1 and the arguments are
    parsed.  [duration] starts at -1 on both paths. *)
Definition main_init (ncpu : Z) (args : list arg) : globals + exit_code :=
  match args with
  | [] => inl (mk_globals ncpu (repeat 100 (Z.to_nat ncpu)) (-1))
  | _ => parse_args args (mk_globals ncpu (repeat (-1) (Z.to_nat ncpu)) (-1))
  end.

(** What a thread does once it holds its private [cpu]. *)
Inductive action : Type :=
| RunLoadgen (cpu load duration : Z)
| InvalidCpu (cpu : Z)
| OutOfBounds (cpu : Z).

(** [thread_loadgen] from the guard on:
    [if (cpu < (unsigned int)cpu_count)
       loadgen(cpu, cpuloads[cpu], duration);
     else fprintf(stderr, ... invalid cpu argument ...);]
    The [int] load and the [long int] duration are converted to the
    [unsigned int] parameters of [loadgen]. *)
Definition thread_loadgen (g : globals) (cpu : Z) : action :=
  if cpu <? to_uint (cpu_count g) then
    match nth_error (cpuloads g) (Z.to_nat cpu) with
    | Some load => RunLoadgen cpu (to_uint load) (to_uint (duration g))
    | None => OutOfBounds cpu
    end
  else InvalidCpu cpu.

(** The events of a thread: those of [loadgen] when it is called, none
    otherwise (the error message goes to [stderr]). *)
Definition thread_run (g : globals) (cpu : Z)
  (tv_start : timeval) (env : list Loadgen.reading) : option Loadgen.run :=
  match thread_loadgen g cpu with
  | RunLoadgen c load d => Some (Loadgen.loadgen c load d tv_start env)
  | InvalidCpu _ => Some (Loadgen.mk_run [] 0 true)
  | OutOfBounds _ => None
  end.

End Runner.


(** ** The fan-out of [main]: spawn loop, hand-off of [cpu], join loop *)

Module Orchestrator.

Import Runner.

(** How far a created thread is in [thread_loadgen]. *)
Inductive tphase : Type :=
| TEntered                (* created; [cpu = *ptr] not yet executed *)
| TCopied (cpu : Z)       (* private [cpu] set; [mutex1] not yet released *)
| TUnlocked (cpu : Z)     (* past [pthread_mutex_unlock]: guard and [loadgen] *)
| TExited (cpu : Z).      (* past [pthread_exit] *)

(** A created thread; [slot] is the [i] of the [pthread_create] call that
    made it (the index of its [threads[i]] entry). *)
Record thread : Type := mk_thread { slot : nat; phase : tphase }.

(** Where [main] is. *)
Inductive mainpc : Type :=
| MFor (i : nat)       (* spawn loop: [i < cpu_count] and [cpuloads[i] == -1] *)
| MLock (i : nat)      (* at [pthread_mutex_lock(&mutex1)] *)
| MAssign (i : nat)    (* at [cpu = i] *)
| MCreate (i : nat)    (* at [pthread_create(&threads[i], ..., &cpu)] *)
| MJoinFor (i : nat)   (* join loop: [i < cpu_count] and [cpuloads[i] == -1] *)
| MJoin (i : nat)      (* in [pthread_join(threads[i], NULL)] *)
| MDone.               (* past the join loop *)

(** A [pthread_join] call that [main] has made and that has returned:
    the index [i], and the thread it waited for, the one that
    [threads[i]] names. *)
Record join_call : Type := mk_join { join_slot : nat; joined : option nat }.

(** Shared memory and control state.  [cpu_var] is the [int cpu] of the
    spawn loop, whose address every thread receives: one storage
    location for all the passes, as a compiler lays the block out.
    [mutex1] is [true] when locked, and is released by whichever thread
    calls the unlock (the threads release what [main] has locked).  A
    thread is named by its position in [pool]; [threads] is the array of
    that name, -1 where nothing was stored. *)
Record state : Type := mk_state {
  pc : mainpc;
  cpu_var : Z;
  mutex1 : bool;
  pool : list thread;
  threads : list Z;
  joins : list join_call
}.

(** Static data of a run: the globals after argument handling and, for
    each [i], whether the [pthread_create] of that pass succeeds. *)
Record config : Type := mk_config {
  glob : globals;
  create_ok : nat -> bool
}.

Inductive actor : Type :=
| AMain
| AThread (tid : nat).

(** State on entry to the spawn loop: [threads[i] = -1] for every core,
    [cpu] not yet assigned (its content is [cpu0]). *)
Definition init (c : config) (cpu0 : Z) : state :=
  mk_state (MFor 0) cpu0 false []
           (repeat (-1) (Z.to_nat (cpu_count (glob c)))) [].

Definition load_of (c : config) (i : nat) : Z :=
  nth i (cpuloads (glob c)) (-1).

Definition set_pc (s : state) (p : mainpc) : state :=
  mk_state p (cpu_var s) (mutex1 s) (pool s) (threads s) (joins s).

(** The thread table with thread [tid] moved to phase [ph]. *)
Fixpoint set_phase (l : list thread) (tid : nat) (ph : tphase) : list thread :=
  match l, tid with
  | [], _ => []
  | th :: l', O => mk_thread (slot th) ph :: l'
  | th :: l', S tid' => th :: set_phase l' tid' ph
  end.

(** One step of [main]; [None] when [main] is blocked, has finished, or
    is in a call that is undefined. *)
Definition step_main (c : config) (s : state) : option state :=
  match pc s with
  | MFor i =>
      if Z.of_nat i <? cpu_count (glob c) then
        if load_of c i =? -1 then Some (set_pc s (MFor (S i)))
        else Some (set_pc s (MLock i))
      else Some (set_pc s (MJoinFor 0))
  | MLock i =>
      if mutex1 s then None
      else Some (mk_state (MAssign i) (cpu_var s) true
                          (pool s) (threads s) (joins s))
  | MAssign i =>
      Some (mk_state (MCreate i) (Z.of_nat i) (mutex1 s)
                     (pool s) (threads s) (joins s))
  | MCreate i =>
      if create_ok c i then
        Some (mk_state (MFor (S i)) (cpu_var s) (mutex1 s)
                       (pool s ++ [mk_thread i TEntered])
                       (store (threads s) i (Z.of_nat (length (pool s))))
                       (joins s))
      else Some (set_pc s (MFor (S i)))
  | MJoinFor i =>
      if Z.of_nat i <? cpu_count (glob c) then
        if load_of c i =? -1 then Some (set_pc s (MJoinFor (S i)))
        else Some (set_pc s (MJoin i))
      else Some (set_pc s MDone)
  | MJoin i =>
      (* [pthread_join(threads[i], NULL)]: the call is defined only when
         [threads[i]] names a thread that was created; it returns once
         that thread has exited *)
      let t := nth i (threads s) (-1) in
      if t <? 0 then None
      else
        match nth_error (pool s) (Z.to_nat t) with
        | Some (mk_thread _ (TExited _)) =>
            Some (mk_state (MJoinFor (S i)) (cpu_var s) (mutex1 s) (pool s)
                    (threads s) (joins s ++ [mk_join i (Some (Z.to_nat t))]))
        | Some _ => None
        | None => None
        end
  | MDone => None
  end.

(** One step of thread [tid]; [None] when there is no such thread or it
    has exited.  The copy reads [cpu] through the pointer as an
    [unsigned int]; the unlock releases [mutex1] whoever locked it. *)
Definition step_thread (c : config) (tid : nat) (s : state) : option state :=
  match nth_error (pool s) tid with
  | None => None
  | Some th =>
      match phase th with
      | TEntered =>
          Some (mk_state (pc s) (cpu_var s) (mutex1 s)
                  (set_phase (pool s) tid (TCopied (to_uint (cpu_var s))))
                  (threads s) (joins s))
      | TCopied v =>
          Some (mk_state (pc s) (cpu_var s) false
                  (set_phase (pool s) tid (TUnlocked v)) (threads s) (joins s))
      | TUnlocked v =>
          Some (mk_state (pc s) (cpu_var s) (mutex1 s)
                  (set_phase (pool s) tid (TExited v)) (threads s) (joins s))
      | TExited _ => None
      end
  end.

Definition step (c : config) (a : actor) (s : state) : option state :=
  match a with
  | AMain => step_main c s
  | AThread tid => step_thread c tid s
  end.

(** A schedule is the order in which the actors are given a step; an
    actor that cannot move when chosen is passed over. *)
Fixpoint exec (c : config) (sched : list actor) (s : state) : state :=
  match sched with
  | [] => s
  | a :: sched' =>
      match step c a s with
      | Some s' => exec c sched' s'
      | None => exec c sched' s
      end
  end.

(** [main] is in a [pthread_join] on a value that names no created
    thread: a call that POSIX leaves undefined. *)
Definition join_undefined (s : state) : bool :=
  match pc s with
  | MJoin i =>
      let t := nth i (threads s) (-1) in
      (t <? 0) || (length (pool s) <=? Z.to_nat t)%nat
  | _ => false
  end.

(** The core index a thread works with, once it has made its copy. *)
Definition observed (th : thread) : option Z :=
  match phase th with
  | TEntered => None
  | TCopied v | TUnlocked v | TExited v => Some v
  end.

(** The slots of the created threads, in creation order. *)
Definition started (s : state) : list nat := map slot (pool s).

(** The cores with a load assigned, among the first [n]. *)
Definition loaded (c : config) (n : nat) : list nat :=
  filter (fun i => negb (load_of c i =? -1)) (seq 0 n).

(** A thread that still has to release [mutex1]. *)
Definition pre_unlock (th : thread) : bool :=
  match phase th with
  | TEntered | TCopied _ => true
  | TUnlocked _ | TExited _ => false
  end.

(** [main] is between its [pthread_mutex_lock] and the return of its
    [pthread_create]. *)
Definition in_handoff (p : mainpc) : bool :=
  match p with
  | MAssign _ | MCreate _ => true
  | _ => false
  end.

(** The index the spawn loop is at, while it runs. *)
Definition frontier (p : mainpc) : option nat :=
  match p with
  | MFor i | MLock i | MAssign i | MCreate i => Some i
  | MJoinFor _ | MJoin _ | MDone => None
  end.

(** The index of a pass that has got past the two tests of the spawn
    loop. *)
Definition spawning (p : mainpc) : option nat :=
  match p with
  | MLock i | MAssign i | MCreate i => Some i
  | _ => None
  end.

(** What every reachable state satisfies. *)
Record invariant (c : config) (s : state) : Prop := mk_invariant {
  inv_slot_loaded :
    forall t th, nth_error (pool s) t = Some th ->
      Z.of_nat (slot th) < cpu_count (glob c) /\ load_of c (slot th) <> -1;
  inv_slot_frontier :
    forall t th i, nth_error (pool s) t = Some th ->
      frontier (pc s) = Some i -> (slot th < i)%nat;
  inv_slot_order :
    forall t1 t2 th1 th2,
      nth_error (pool s) t1 = Some th1 -> nth_error (pool s) t2 = Some th2 ->
      (t1 < t2)%nat -> (slot th1 < slot th2)%nat;
  inv_observed :
    forall t th v, nth_error (pool s) t = Some th ->
      observed th = Some v -> v = Z.of_nat (slot th);
  inv_pending :
    forall t th, nth_error (pool s) t = Some th -> pre_unlock th = true ->
      S t = length (pool s) /\ mutex1 s = true /\ in_handoff (pc s) = false
      /\ (phase th = TEntered -> cpu_var s = Z.of_nat (slot th));
  inv_handoff : in_handoff (pc s) = true -> mutex1 s = true;
  inv_spawning :
    forall i, spawning (pc s) = Some i ->
      Z.of_nat i < cpu_count (glob c) /\ load_of c i <> -1;
  inv_create : forall i, pc s = MCreate i -> cpu_var s = Z.of_nat i
}.

(** Position of core [i] in a list of slots. *)
Fixpoint index_of (i : nat) (l : list nat) : option nat :=
  match l with
  | [] => None
  | x :: l' => if Nat.eqb x i then Some O else option_map S (index_of i l')
  end.

(** [cpu_count] as a number of passes. *)
Definition ncpu (c : config) : nat := Z.to_nat (cpu_count (glob c)).

(** The cores among the first [n] with a load assigned whose
    [pthread_create] succeeds. *)
Definition created (c : config) (n : nat) : list nat :=
  filter (create_ok c) (loaded c n).

(** What [threads[k]] names: the thread created for core [k], if any. *)
Definition handle_of (s : state) (k : nat) : Z :=
  match index_of k (started s) with
  | Some t => Z.of_nat t
  | None => -1
  end.

(** How far the two loops of [main] have got. *)
Definition spawn_done (c : config) (p : mainpc) : nat :=
  match frontier p with
  | Some i => i
  | None => ncpu c
  end.

Definition join_done (c : config) (p : mainpc) : nat :=
  match p with
  | MJoinFor j | MJoin j => j
  | MDone => ncpu c
  | _ => O
  end.

(** Book-keeping of the fan-out in every reachable state. *)
Record fanout (c : config) (s : state) : Prop := mk_fanout {
  fo_started : started s = created c (spawn_done c (pc s));
  fo_bound : (spawn_done c (pc s) <= ncpu c)%nat
             /\ (join_done c (pc s) <= ncpu c)%nat;
  fo_joining : forall j, pc s = MJoin j ->
                         (j < ncpu c)%nat /\ load_of c j <> -1;
  fo_length : length (threads s) = ncpu c;
  fo_threads : forall k, (k < ncpu c)%nat ->
                         nth k (threads s) (-1) = handle_of s k;
  fo_join_slots : map join_slot (joins s) = loaded c (join_done c (pc s));
  fo_joined : forall jc, In jc (joins s) ->
                         joined jc = index_of (join_slot jc) (started s)
}.

End Orchestrator.


(** ** The buffers of [main]: [malloc], [free_buffers], the return paths *)

Module Buffers.

Import Runner.

(** A pointer held in [threads] or [cpuloads]: [NULL], or the block that
    [malloc] returned. *)
Inductive pointer : Type :=
| NULL
| Block (b : nat).

(** The allocator's view: for every block handed out so far, whether it
    is still allocated. *)
Definition heap : Type := list bool.

(** The two global pointers and the heap. *)
Record memory : Type := mk_memory {
  threads_ptr : pointer;
  cpuloads_ptr : pointer;
  blocks : heap
}.

Definition is_null (p : pointer) : bool :=
  match p with
  | NULL => true
  | Block _ => false
  end.

(** [malloc]: a fresh allocated block, or [NULL] when it fails. *)
Definition malloc (ok : bool) (h : heap) : pointer * heap :=
  if ok then (Block (length h), h ++ [true]) else (NULL, h).

Fixpoint release (h : heap) (b : nat) : heap :=
  match h, b with
  | [], _ => []
  | _ :: h', O => false :: h'
  | x :: h', S b' => x :: release h' b'
  end.

(** [free(p)]: nothing for [NULL]; releases an allocated block; anything
    else (a block already released, or never handed out) is undefined,
    which is [None]. *)
Definition free (p : pointer) (h : heap) : option heap :=
  match p with
  | NULL => Some h
  | Block b =>
      match nth_error h b with
      | Some true => Some (release h b)
      | _ => None
      end
  end.

(** [free_buffers]:
    [if (threads != NULL) free(threads);
     if (cpuloads != NULL) free(cpuloads);]
    The pointers keep their values. *)
Definition free_buffers (m : memory) : option memory :=
  match (if is_null (threads_ptr m) then Some (blocks m)
         else free (threads_ptr m) (blocks m)) with
  | None => None
  | Some h1 =>
      match (if is_null (cpuloads_ptr m) then Some h1
             else free (cpuloads_ptr m) h1) with
      | None => None
      | Some h2 => Some (mk_memory (threads_ptr m) (cpuloads_ptr m) h2)
      end
  end.

(** [sigterm_handler]: two messages around [free_buffers]; it returns to
    the interrupted program. *)
Definition sigterm_handler (m : memory) : option memory := free_buffers m.

(** How [main] leaves its start-up: one of its early [return]s, or on to
    "Start load generation" with the globals set. *)
Inductive outcome : Type :=
| ReturnCount (n : Z)       (* [return cpu_count;] *)
| ReturnENOMEM              (* [return -ENOMEM;] *)
| ReturnEINVAL              (* [return einval(...)] and [return -EINVAL;] *)
| Spawn (g : globals).

(** [main] up to the spawn loop.  [nproc] is what [sysconf] returned, as
    an [int]; [ok_threads] and [ok_cpuloads] say whether the two [malloc]
    calls succeed; [h] is the heap on entry, with both pointers [NULL]. *)
Definition main_startup (nproc : Z) (ok_threads ok_cpuloads : bool)
  (args : list arg) (h : heap) : option (outcome * memory) :=
  if nproc <? 1 then Some (ReturnCount nproc, mk_memory NULL NULL h)
  else
    let (pt, h1) := malloc ok_threads h in
    let (pl, h2) := malloc ok_cpuloads h1 in
    let m := mk_memory pt pl h2 in
    if is_null pt || is_null pl then Some (ReturnENOMEM, m)
    else
      match main_init nproc args with
      | inr EINVAL =>
          match free_buffers m with
          | Some m' => Some (ReturnEINVAL, m')
          | None => None
          end
      | inl g => Some (Spawn g, m)
      end.

(** The end of [main], after the join loop: [free_buffers(); return 0;] *)
Definition main_finish (m : memory) : option memory := free_buffers m.

(** Whether a pointer names a block that is still allocated. *)
Definition allocated (p : pointer) (h : heap) : bool :=
  match p with
  | NULL => false
  | Block b => nth b h false
  end.

End Buffers.

(** ** Progress of the fan-out *)

Module Progress.

Import Orchestrator.

(** Whether an actor can take a step. *)
Definition enabled (c : config) (a : actor) (s : state) : bool :=
  match step c a s with
  | Some _ => true
  | None => false
  end.

Definition has_exited (th : thread) : bool :=
  match phase th with
  | TExited _ => true
  | _ => false
  end.

(** A locked [mutex1] has someone to release it: [main] is in its
    hand-off, or a thread has not yet unlocked. *)
Definition lock_has_releaser (s : state) : Prop :=
  mutex1 s = true ->
  in_handoff (pc s) = true
  \/ exists t th, nth_error (pool s) t = Some th /\ pre_unlock th = true.

(** Every core that has a load and that the spawn loop has passed has a
    thread named in its [threads] entry: what the spawn loop keeps when
    every [pthread_create] succeeds. *)
Record handles_named (c : config) (s : state) : Prop := mk_handles_named {
  hn_length : length (threads s) = ncpu c;
  hn_spawning : forall i, spawning (pc s) = Some i -> (i < ncpu c)%nat;
  hn_joining : forall j, pc s = MJoin j ->
                         (j < ncpu c)%nat /\ load_of c j <> -1;
  hn_named : forall k,
      (k < ncpu c)%nat -> load_of c k <> -1 ->
      (forall i, frontier (pc s) = Some i -> (k < i)%nat) ->
      0 <= nth k (threads s) (-1)
      /\ (Z.to_nat (nth k (threads s) (-1)%Z) < length (pool s))%nat
}.

(** A [pthread_join] that named a thread returned after that thread's
    [pthread_exit]. *)
Definition joined_have_exited (s : state) : Prop :=
  forall jc t, In jc (joins s) -> joined jc = Some t ->
    exists th, nth_error (pool s) t = Some th /\ has_exited th = true.

End Progress.


(** * Properties *)

Import Loadgen.

(** ** Arithmetic of the duty cycle *)

Lemma to_uint_small z : 0 <= z <= UINT_MAX -> to_uint z = z.
Proof.
  intros H. unfold to_uint. apply Z.mod_small. unfold UINT_MAX in *. lia.
Qed.

Lemma to_uint_range z : 0 <= to_uint z <= UINT_MAX.
Proof.
  unfold to_uint, UINT_MAX.
  pose proof (Z.mod_pos_bound z (4294967295 + 1)). lia.
Qed.

Lemma divisor_of_load load :
  1 <= load <= 99 ->
  double_of_uint (to_uint (load + 1)) = inject_Z (load + 1).
Proof.
  intros H. rewrite to_uint_small; [reflexivity | unfold UINT_MAX; lia].
Qed.

Lemma inject_Z_pos z : 0 < z -> (0 < inject_Z z)%Q.
Proof.
  intros H. change 0%Q with (inject_Z 0). rewrite <- Zlt_Qlt. exact H.
Qed.

Lemma inject_Z_nonzero z : 0 < z -> ~ (inject_Z z == 0)%Q.
Proof.
  intros H E. apply inject_Z_pos in H. rewrite E in H.
  exact (Qlt_irrefl 0 H).
Qed.

(** The idle time is the share [(99 - load) / (load + 1)] of the active
    time. *)
Lemma idle_time_closed active load :
  1 <= load <= 99 ->
  (idle_time_us active load
   == active * (inject_Z (99 - load) / inject_Z (load + 1)))%Q.
Proof.
  intros H. unfold idle_time_us, total_time_us.
  rewrite divisor_of_load by exact H.
  replace (99 - load) with (100 + - (load + 1)) by lia.
  rewrite (inject_Z_plus 100), inject_Z_opp.
  field. apply inject_Z_nonzero. lia.
Qed.




(** A burst measured as negative (the clock of [dtime] stepped back)
    gives [total_time_us < active_time_us] and a negative idle time. *)
Lemma idle_time_negative active load :
  1 <= load <= 98 -> (active < 0)%Q ->
  (total_time_us active load < active)%Q /\ (idle_time_us active load < 0)%Q.
Proof.
  intros H Ha.
  assert (Hi : (idle_time_us active load < 0)%Q).
  { rewrite idle_time_closed by lia.
    assert (Hr : (0 < inject_Z (99 - load) / inject_Z (load + 1))%Q).
    { apply Qlt_shift_div_l; [apply inject_Z_pos; lia|].
      rewrite Qmult_0_l. apply inject_Z_pos. lia. }
    rewrite Qmult_comm.
    setoid_replace 0%Q
      with (inject_Z (99 - load) / inject_Z (load + 1) * 0)%Q by ring.
    apply Qmult_lt_l; assumption. }
  split; [|exact Hi].
  unfold idle_time_us in Hi. lra.
Qed.

(** ** Shape of a run *)




(** Both loops share their control: the same readings give the same
    number of passes and the same exit. *)
Lemma loops_same_control load duration start env :
  iterations (partial_loop load duration start env)
  = iterations (full_loop duration start env)
  /\ exited (partial_loop load duration start env)
     = exited (full_loop duration start env).
Proof.
  induction env as [|r env [IHi IHe]]; [split; reflexivity|].
  cbn [partial_loop full_loop].
  destruct (deadline_reached duration start _); cbn; [tauto|].
  rewrite IHi, IHe. tauto.
Qed.


(** With [duration == 0] the test of the [break] is false whatever the
    clock says. *)
Lemma zero_duration_never_exits load start env :
  exited (duty_loop load 0 start env) = false
  /\ iterations (duty_loop load 0 start env) = length env.
Proof.
  assert (H : exited (full_loop 0 start env) = false
              /\ iterations (full_loop 0 start env) = length env).
  { induction env as [|r env [IHe IHi]]; [split; reflexivity|].
    cbn. rewrite IHe, IHi. tauto. }
  unfold duty_loop. destruct (negb (load =? 100)); [|exact H].
  destruct (loops_same_control load 0 start env) as [-> ->]. exact H.
Qed.

(** ** The conversion to [unsigned int] *)



(** A value of -1 or below has no conversion to [unsigned int]. *)
Lemma uint_of_double_negative d : (d <= -1)%Q -> uint_of_double d = None.
Proof.
  destruct d as [n p]. unfold Qle, uint_of_double, Qtrunc. cbn. intros H.
  assert (Hq : Z.quot n (Z.pos p) <= -1).
  { replace (-1) with (Z.quot (- Z.pos p) (Z.pos p)).
    - apply Z.quot_le_mono; lia.
    - rewrite Z.quot_opp_l by lia. rewrite Z.quot_same by lia. reflexivity. }
  replace (0 <=? Z.quot n (Z.pos p)) with false; [reflexivity|].
  symmetry. apply Z.leb_gt. lia.
Qed.

(** ** Shape of a run in binary64 *)

(** The constant [1.0e-6] of the source is the binary64 value nearest to
    one millionth, which is also what the correctly rounded quotient
    gives. *)
Lemma micro_is_one_millionth : Binary64.micro = (1 / 1000000)%float.
Proof. reflexivity. Qed.

Lemma binary64_partial_loop_trace load duration start env :
  trace (Binary64.partial_loop load duration start env)
  = flat_map (Binary64.partial_pass load)
      (firstn (iterations (Binary64.partial_loop load duration start env)) env).
Proof.
  induction env as [|r env IH]; [reflexivity|].
  cbn [Binary64.partial_loop].
  destruct (Binary64.deadline_reached duration start _).
  - cbn. reflexivity.
  - cbn [trace iterations firstn flat_map]. rewrite <- IH. reflexivity.
Qed.

Lemma binary64_full_loop_trace duration start env :
  trace (Binary64.full_loop duration start env)
  = flat_map (fun _ => full_pass)
      (firstn (iterations (Binary64.full_loop duration start env)) env).
Proof.
  induction env as [|r env IH]; [reflexivity|].
  cbn [Binary64.full_loop].
  destruct (Binary64.deadline_reached duration start _).
  - cbn. reflexivity.
  - cbn [trace iterations firstn flat_map]. rewrite <- IH. reflexivity.
Qed.

Lemma binary64_duty_loop_trace load duration start env :
  trace (Binary64.duty_loop load duration start env)
  = flat_map (Binary64.pass_events load)
      (firstn (iterations (Binary64.duty_loop load duration start env)) env).
Proof.
  unfold Binary64.duty_loop, Binary64.pass_events.
  destruct (negb (load =? 100)).
  - apply binary64_partial_loop_trace.
  - apply binary64_full_loop_trace.
Qed.

(** Both loops share their control in binary64 too. *)
Lemma binary64_duty_loop_control load duration start env :
  iterations (Binary64.duty_loop load duration start env)
  = iterations (Binary64.full_loop duration start env)
  /\ exited (Binary64.duty_loop load duration start env)
     = exited (Binary64.full_loop duration start env).
Proof.
  unfold Binary64.duty_loop. destruct (negb (load =? 100)); [|tauto].
  induction env as [|r env [IHi IHe]]; [split; reflexivity|].
  cbn [Binary64.partial_loop Binary64.full_loop].
  destruct (Binary64.deadline_reached duration start _); cbn; [tauto|].
  rewrite IHi, IHe. tauto.
Qed.

(** The loop is left at the first check that finds the deadline
    reached. *)
Lemma binary64_first_deadline duration start env :
  forall n rd,
    nth_error env n = Some rd ->
    Binary64.deadline_reached duration start
      (Binary64.timeval_seconds (Binary64.tv_cpuloadgen rd)) = true ->
    (forall k rk, (k < n)%nat -> nth_error env k = Some rk ->
       Binary64.deadline_reached duration start
         (Binary64.timeval_seconds (Binary64.tv_cpuloadgen rk)) = false) ->
    exited (Binary64.full_loop duration start env) = true
    /\ iterations (Binary64.full_loop duration start env) = S n.
Proof.
  induction env as [|r env IH]; intros n rd Hn Hdue Hbefore.
  - destruct n; discriminate.
  - destruct n as [|n]; cbn [Binary64.full_loop].
    + injection Hn as ->. rewrite Hdue. cbn. tauto.
    + rewrite (Hbefore O r) by (lia || reflexivity).
      cbn [exited iterations].
      destruct (IH n rd Hn Hdue) as [He Hi].
      * intros k rk Hk Hrk. apply (Hbefore (S k) rk); [lia | exact Hrk].
      * rewrite He, Hi. tauto.
Qed.

(** While no check finds the deadline reached the loop goes on. *)
Lemma binary64_no_deadline duration start env :
  (forall rd, In rd env ->
     Binary64.deadline_reached duration start
       (Binary64.timeval_seconds (Binary64.tv_cpuloadgen rd)) = false) ->
  exited (Binary64.full_loop duration start env) = false
  /\ iterations (Binary64.full_loop duration start env) = length env.
Proof.
  induction env as [|r env IH]; intros Hnone; [split; reflexivity|].
  cbn [Binary64.full_loop]. rewrite (Hnone r) by (left; reflexivity).
  cbn [exited iterations length].
  destruct IH as [He Hi]; [intros rd Hin; apply Hnone; right; exact Hin|].
  rewrite He, Hi. tauto.
Qed.

(** A loop that was left was left at a check that found the deadline
    reached, the first one to do so. *)
Lemma binary64_exit_is_deadline duration start env :
  exited (Binary64.full_loop duration start env) = true ->
  exists n rd,
    iterations (Binary64.full_loop duration start env) = S n
    /\ nth_error env n = Some rd
    /\ Binary64.deadline_reached duration start
         (Binary64.timeval_seconds (Binary64.tv_cpuloadgen rd)) = true
    /\ (forall k rk, (k < n)%nat -> nth_error env k = Some rk ->
          Binary64.deadline_reached duration start
            (Binary64.timeval_seconds (Binary64.tv_cpuloadgen rk)) = false).
Proof.
  induction env as [|r env IH]; [discriminate|].
  cbn [Binary64.full_loop].
  destruct (Binary64.deadline_reached duration start
              (Binary64.timeval_seconds (Binary64.tv_cpuloadgen r))) eqn:E.
  - intros _. exists O, r. cbn [iterations nth_error].
    repeat split; try assumption. intros k rk Hk. lia.
  - cbn [exited iterations]. intros He.
    destruct (IH He) as [n [rd [Hi [Hn [Hdue Hbefore]]]]].
    exists (S n), rd. rewrite Hi. cbn [nth_error].
    repeat split; try assumption.
    intros k rk Hk Hrk. destruct k as [|k].
    + injection Hrk as <-. exact E.
    + apply (Hbefore k rk); [lia | exact Hrk].
Qed.

(** The pass of the partial-load loop with its arithmetic written out. *)
Lemma binary64_partial_pass_explicit load rd :
  1 <= load <= 99 ->
  Binary64.partial_pass load rd
  = [ EvDtime; EvWorkload 50000; EvDtime;
      EvUsleep
        (Binary64.uint_of_double
           ((Binary64.workload_end_time rd - Binary64.workload_start_time rd)
            * 1000000 * (100 / Binary64.double_of_Z (load + 1))
            - (Binary64.workload_end_time rd - Binary64.workload_start_time rd)
              * 1000000)%float);
      EvGettimeofday ].
Proof.
  intros H. unfold Binary64.partial_pass, Binary64.idle_time_us,
    Binary64.total_time_us, Binary64.active_time_us, Binary64.mega.
  rewrite to_uint_small by (unfold UINT_MAX; lia). reflexivity.
Qed.

Lemma usleep_args_of_partial_passes (f : Binary64.reading -> option Z) l :
  usleep_args
    (flat_map (fun rd => [EvDtime; EvWorkload 50000; EvDtime;
                          EvUsleep (f rd); EvGettimeofday]) l)
  = map f l.
Proof.
  induction l as [|rd l IH]; [reflexivity|].
  cbn [flat_map app usleep_args map]. rewrite IH. reflexivity.
Qed.

(** Over the loads 1..99 the factor [100.0 / (load + 1)] is strictly
    below [100.0 / load]. *)
Lemma biased_factor_is_smaller load :
  1 <= load <= 99 ->
  (100 / Binary64.double_of_Z (load + 1)
   <? 100 / Binary64.double_of_Z load)%float = true.
Proof.
  intros H.
  assert (Hall : forallb
            (fun l => (100 / Binary64.double_of_Z (l + 1)
                       <? 100 / Binary64.double_of_Z l)%float)
            (map Z.of_nat (seq 1 99)) = true) by (vm_compute; reflexivity).
  rewrite forallb_forall in Hall. apply Hall.
  replace load with (Z.of_nat (Z.to_nat load)) by lia.
  apply in_map, in_seq. lia.
Qed.

(** ** The partial-load computation *)

(** C1 as stated fails on the formula, at a load of 96 and a burst that
    [dtime] measures as 1.515625 s.  The burst is 1515625 us;
    [active_time * 100 / (load + 1)] is 1562500 us, in exact arithmetic
    and in binary64 alike, which leaves an idle time of 46875 us.  The
    code multiplies by the rounded quotient [100.0 / 97] instead: its
    [total_time_us] is below 1562500 and [usleep] receives 46874. *)
Lemma total_time_is_not_the_quotient :
  (let rd := Binary64.mk_reading 0 1.515625 (mk_timeval 1 0) in
   let active := Binary64.active_time_us rd in
   (active =? 1515625)%float = true
   /\ (active * 100 / Binary64.double_of_Z (96 + 1) =? 1562500)%float = true
   /\ (inject_Z 1515625 * inject_Z 100 / inject_Z (96 + 1)
       == inject_Z 1562500)%Q
   /\ CTypes.uint_of_double (inject_Z 1562500 - inject_Z 1515625) = Some 46875
   /\ (Binary64.total_time_us active 96 <? 1562500)%float = true
   /\ usleep_args (trace (Binary64.loadgen 0 96 0 (mk_timeval 0 0) [rd]))
      = [Some 46874])
  /\ ~ (forall load rd,
          1 <= load <= 99 ->
          Binary64.total_time_us (Binary64.active_time_us rd) load
          = (Binary64.active_time_us rd * 100
             / Binary64.double_of_Z (load + 1))%float).
Proof.
  split.
  - cbv zeta. repeat split; vm_compute; reflexivity.
  - intros H.
    assert (E : (Binary64.total_time_us
                   (Binary64.active_time_us
                      (Binary64.mk_reading 0 1.515625 (mk_timeval 1 0))) 96
                 <? 1562500)%float = true) by (vm_compute; reflexivity).
    rewrite H in E by lia. vm_compute in E. discriminate.
Qed.

(** C1, amended: for a load in 1..99 the loop taken is the partial-load
    one.  Every pass reads [dtime] around [workload(50000)], computes in
    binary64 [active = (end - start) * 1.0e6] from these two readings,
    [total = active * (100.0 / (load + 1))] and [idle = total - active],
    and hands [usleep] the conversion of [idle] to [unsigned int]; a pass
    is made for every reading up to the first deadline check that
    succeeds.  The divisor is [load + 1]: the factor it gives is strictly
    below the one [load] would give. *)
Theorem partial_pass_computes_biased_idle :
  forall cpu load duration tv_start env,
    1 <= load <= 99 ->
    let r := Binary64.loadgen cpu load duration tv_start env in
    let idle := fun rd : Binary64.reading =>
      ((Binary64.workload_end_time rd - Binary64.workload_start_time rd)
       * 1000000 * (100 / Binary64.double_of_Z (load + 1))
       - (Binary64.workload_end_time rd - Binary64.workload_start_time rd)
         * 1000000)%float in
    let seconds := fun tv : timeval =>
      (Binary64.double_of_Z (tv_sec tv)
       + Binary64.double_of_Z (tv_usec tv) * 0x1.0c6f7a0b5ed8dp-20)%float in
    let due := fun rd : Binary64.reading =>
      negb (duration =? 0)
      && (Binary64.double_of_Z duration
          <=? seconds (Binary64.tv_cpuloadgen rd) - seconds tv_start)%float in
    trace r
    = EvPrintf load :: EvGettimeofday
        :: flat_map (fun rd => [ EvDtime; EvWorkload 50000; EvDtime;
                                 EvUsleep (Binary64.uint_of_double (idle rd));
                                 EvGettimeofday ])
             (firstn (iterations r) env)
    /\ usleep_args (trace r)
       = map (fun rd => Binary64.uint_of_double (idle rd))
           (firstn (iterations r) env)
    /\ ((forall rd, In rd env -> due rd = false) ->
        iterations r = length env)
    /\ (forall n rd,
          nth_error env n = Some rd -> due rd = true ->
          (forall k rk, (k < n)%nat -> nth_error env k = Some rk ->
                        due rk = false) ->
          iterations r = S n)
    /\ (100 / Binary64.double_of_Z (load + 1)
        <? 100 / Binary64.double_of_Z load)%float = true.
Proof.
  intros cpu load duration tv_start env H r idle seconds due.
  destruct (binary64_duty_loop_control load duration
              (Binary64.timeval_seconds tv_start) env) as [Hi _].
  assert (Ht : trace r
               = EvPrintf load :: EvGettimeofday
                   :: flat_map (fun rd => [ EvDtime; EvWorkload 50000; EvDtime;
                                  EvUsleep (Binary64.uint_of_double (idle rd));
                                  EvGettimeofday ])
                        (firstn (iterations r) env)).
  { subst r. unfold Binary64.loadgen. cbn [trace iterations].
    rewrite binary64_duty_loop_trace. do 2 f_equal.
    apply flat_map_ext. intros rd. unfold Binary64.pass_events.
    replace (load =? 100) with false by (symmetry; apply Z.eqb_neq; lia).
    cbn [negb]. apply binary64_partial_pass_explicit. exact H. }
  split; [exact Ht|]. split; [|split; [|split]].
  - rewrite Ht. cbn [usleep_args].
    apply (usleep_args_of_partial_passes
             (fun rd => Binary64.uint_of_double (idle rd))).
  - intros Hnone. subst r. unfold Binary64.loadgen. cbn [iterations].
    rewrite Hi.
    apply (binary64_no_deadline duration
             (Binary64.timeval_seconds tv_start) env). exact Hnone.
  - intros n rd Hn Hdue Hbefore. subst r. unfold Binary64.loadgen.
    cbn [iterations]. rewrite Hi.
    apply (binary64_first_deadline duration
             (Binary64.timeval_seconds tv_start) env n rd Hn Hdue Hbefore).
  - apply biased_factor_is_smaller. exact H.
Qed.

Lemma partial_pass_computes_biased_idle_witness :
  usleep_args
    (trace (Binary64.loadgen 0 96 2 (mk_timeval 100 0)
              [ Binary64.mk_reading 0 1.515625 (mk_timeval 101 0);
                Binary64.mk_reading 1 1.5 (mk_timeval 102 0);
                Binary64.mk_reading 2 2.25 (mk_timeval 103 0) ]))
  = [Some 46874; Some 15463].
Proof.
  destruct (partial_pass_computes_biased_idle 0 96 2 (mk_timeval 100 0)
              [ Binary64.mk_reading 0 1.515625 (mk_timeval 101 0);
                Binary64.mk_reading 1 1.5 (mk_timeval 102 0);
                Binary64.mk_reading 2 2.25 (mk_timeval 103 0) ])
    as [_ [Hu [_ [Hn _]]]].
  - lia.
  - rewrite Hu.
    rewrite (Hn 1%nat (Binary64.mk_reading 1 1.5 (mk_timeval 102 0))).
    + vm_compute. reflexivity.
    + reflexivity.
    + vm_compute. reflexivity.
    + intros k rk Hk Hrk. destruct k as [|k]; [|lia].
      injection Hrk as <-. vm_compute. reflexivity.
Defined.



(** C2: a burst that [dtime] measures as negative is not clamped.  With
    the end reading half a second before the start reading and a load of
    49, [total_time_us] is -1000000 and below [active_time_us] = -500000,
    the idle time is -500000, and [usleep] receives the conversion of
    that negative value to [unsigned int], which C leaves undefined,
    not 0. *)
Theorem negative_idle_time_is_not_clamped :
  let rd := mk_reading 1 (1 # 2) (mk_timeval 1 0) in
  let r := loadgen 0 49 10 (mk_timeval 0 0) [rd] in
  (active_time_us rd == -500000)%Q
  /\ (total_time_us (active_time_us rd) 49 < active_time_us rd)%Q
  /\ (idle_time_us (active_time_us rd) 49 == -500000)%Q
  /\ usleep_args (trace r) = [None]
  /\ usleep_args (trace r) <> [Some 0].
Proof.
  cbv zeta. repeat split; try reflexivity. discriminate.
Qed.

(** ** Leaving the loop *)

(** C3 as stated fails at a check made exactly [duration] seconds after
    the start: a start reading of 1.3 s, a duration of 1 s and a first
    deadline check at 2.3 s.  The elapsed time is one second; but
    neither 1.3 nor 2.3 is a binary64 value, the difference the code
    computes is below 1, and the loop, full-load or partial-load, is not
    left at this check: it makes a second pass. *)
Lemma check_at_the_duration_is_missed :
  (let tv_start := mk_timeval 1 300000 in
   let first := mk_timeval 2 300000 in
   let env := [ Binary64.mk_reading 0 0 first;
                Binary64.mk_reading 0 0 (mk_timeval 3 300000) ] in
   (CTypes.timeval_seconds first - CTypes.timeval_seconds tv_start
    == inject_Z 1)%Q
   /\ (Binary64.timeval_seconds first - Binary64.timeval_seconds tv_start
       <? Binary64.double_of_Z 1)%float = true
   /\ iterations (Binary64.loadgen 0 100 1 tv_start env) = 2%nat
   /\ iterations (Binary64.loadgen 0 50 1 tv_start env) = 2%nat)
  /\ ~ (forall cpu load duration tv_start env n rd,
          0 < duration <= UINT_MAX ->
          nth_error env n = Some rd ->
          (inject_Z duration
           <= CTypes.timeval_seconds (Binary64.tv_cpuloadgen rd)
              - CTypes.timeval_seconds tv_start)%Q ->
          (forall k rk, (k < n)%nat -> nth_error env k = Some rk ->
             (CTypes.timeval_seconds (Binary64.tv_cpuloadgen rk)
              - CTypes.timeval_seconds tv_start < inject_Z duration)%Q) ->
          exited (Binary64.loadgen cpu load duration tv_start env) = true
          /\ iterations (Binary64.loadgen cpu load duration tv_start env)
             = S n).
Proof.
  split.
  - cbv zeta. repeat split; vm_compute; reflexivity.
  - intros H.
    destruct (H 0 100 1 (mk_timeval 1 300000)
                [ Binary64.mk_reading 0 0 (mk_timeval 2 300000);
                  Binary64.mk_reading 0 0 (mk_timeval 3 300000) ]
                O (Binary64.mk_reading 0 0 (mk_timeval 2 300000)))
      as [_ Hi].
    + unfold UINT_MAX. lia.
    + reflexivity.
    + vm_compute. discriminate.
    + intros k rk Hk. lia.
    + vm_compute in Hi. discriminate.
Qed.

(** C3, amended: for a duration in 1..UINT_MAX, whatever the load, every
    pass of [loadgen] ends with a fresh [gettimeofday], and the loop is
    left at the first deadline check at which the elapsed time that the
    code computes in binary64,
    [((double) tv_sec + (double) tv_usec * 1.0e-6)] of the check minus
    the same of the start reading, is at least [duration]: exactly the
    passes up to that check are made.  While no check finds it so, the
    loop goes on. *)
Theorem duty_loop_exits_at_first_deadline :
  forall cpu load duration tv_start env,
    0 < duration <= UINT_MAX ->
    let r := Binary64.loadgen cpu load duration tv_start env in
    let seconds := fun tv : timeval =>
      (Binary64.double_of_Z (tv_sec tv)
       + Binary64.double_of_Z (tv_usec tv) * 0x1.0c6f7a0b5ed8dp-20)%float in
    let due := fun rd : Binary64.reading =>
      (Binary64.double_of_Z duration
       <=? seconds (Binary64.tv_cpuloadgen rd) - seconds tv_start)%float in
    let pass := fun rd : Binary64.reading =>
      if load =? 100
      then [ EvWorkload 1000000; EvGettimeofday ]
      else [ EvDtime; EvWorkload 50000; EvDtime;
             EvUsleep (Binary64.uint_of_double
                         (Binary64.idle_time_us
                            (Binary64.active_time_us rd) load));
             EvGettimeofday ] in
    (forall n rd,
        nth_error env n = Some rd -> due rd = true ->
        (forall k rk, (k < n)%nat -> nth_error env k = Some rk ->
                      due rk = false) ->
        exited r = true
        /\ iterations r = S n
        /\ trace r = EvPrintf load :: EvGettimeofday
                       :: flat_map pass (firstn (S n) env))
    /\ ((forall rd, In rd env -> due rd = false) ->
        exited r = false
        /\ iterations r = length env
        /\ trace r = EvPrintf load :: EvGettimeofday :: flat_map pass env)
    /\ (forall rd, last (pass rd) EvDtime = EvGettimeofday).
Proof.
  intros cpu load duration tv_start env Hd r seconds due pass.
  set (start := Binary64.timeval_seconds tv_start).
  assert (Hdue : forall rd,
             Binary64.deadline_reached duration start
               (Binary64.timeval_seconds (Binary64.tv_cpuloadgen rd))
             = due rd).
  { intros rd. unfold Binary64.deadline_reached.
    replace (duration =? 0) with false by (symmetry; apply Z.eqb_neq; lia).
    reflexivity. }
  assert (Hpass : forall l,
             flat_map (Binary64.pass_events load) l = flat_map pass l).
  { intros l. apply flat_map_ext. intros rd.
    unfold Binary64.pass_events, pass. destruct (load =? 100); reflexivity. }
  destruct (binary64_duty_loop_control load duration start env) as [Hi He].
  assert (Ht : trace r = EvPrintf load :: EvGettimeofday
                           :: flat_map pass (firstn (iterations r) env)).
  { subst r. unfold Binary64.loadgen. cbn [trace iterations]. fold start.
    rewrite binary64_duty_loop_trace, Hpass. reflexivity. }
  assert (Hie : iterations r = iterations (Binary64.full_loop duration start env)
                /\ exited r = exited (Binary64.full_loop duration start env)).
  { subst r. unfold Binary64.loadgen. cbn [iterations exited]. fold start.
    split; assumption. }
  destruct Hie as [Hri Hre].
  split; [|split].
  - intros n rd Hn Hrd Hbefore.
    destruct (binary64_first_deadline duration start env n rd Hn) as [E I].
    + rewrite Hdue. exact Hrd.
    + intros k rk Hk Hrk. rewrite Hdue. exact (Hbefore k rk Hk Hrk).
    + rewrite Ht, Hri, Hre, I, E. repeat split.
  - intros Hnone.
    destruct (binary64_no_deadline duration start env) as [E I].
    + intros rd Hin. rewrite Hdue. exact (Hnone rd Hin).
    + rewrite Ht, Hri, Hre, I, E, firstn_all. repeat split.
  - intros rd. unfold pass. destruct (load =? 100); reflexivity.
Qed.

Lemma duty_loop_exits_at_first_deadline_witness :
  let env := [ Binary64.mk_reading 0 0.5 (mk_timeval 2 300000);
               Binary64.mk_reading 0 0.5 (mk_timeval 3 300000);
               Binary64.mk_reading 0 0.5 (mk_timeval 4 300000) ] in
  exited (Binary64.loadgen 0 50 1 (mk_timeval 1 300000) env) = true
  /\ iterations (Binary64.loadgen 0 50 1 (mk_timeval 1 300000) env) = 2%nat.
Proof.
  intros env.
  destruct (duty_loop_exits_at_first_deadline 0 50 1 (mk_timeval 1 300000) env)
    as [H _].
  - unfold UINT_MAX. lia.
  - destruct (H 1%nat (Binary64.mk_reading 0 0.5 (mk_timeval 3 300000)))
      as [He [Hi _]].
    + reflexivity.
    + vm_compute. reflexivity.
    + intros k rk Hk Hrk. destruct k as [|k]; [|lia].
      injection Hrk as <-. vm_compute. reflexivity.
    + split; assumption.
Defined.




(** C4: with a load of 100 [loadgen] runs the full-load loop from start
    to end.  After the start message and the start reading it makes one
    pass, [workload(1000000)] followed by the [gettimeofday] of the
    deadline check, for every reading up to the first check that finds
    [duration] not 0 and the elapsed time computed in binary64 at least
    [duration]; with no such check it makes a pass for every reading
    there is.  It issues nothing else: [usleep] is never called and
    [dtime] is never read, so no idle time is computed. *)
Theorem full_load_never_sleeps :
  forall cpu duration tv_start env,
    let r := Binary64.loadgen cpu 100 duration tv_start env in
    let seconds := fun tv : timeval =>
      (Binary64.double_of_Z (tv_sec tv)
       + Binary64.double_of_Z (tv_usec tv) * 0x1.0c6f7a0b5ed8dp-20)%float in
    let due := fun rd : Binary64.reading =>
      negb (duration =? 0)
      && (Binary64.double_of_Z duration
          <=? seconds (Binary64.tv_cpuloadgen rd) - seconds tv_start)%float in
    trace r
    = EvPrintf 100 :: EvGettimeofday
        :: flat_map (fun _ => [EvWorkload 1000000; EvGettimeofday])
             (firstn (iterations r) env)
    /\ ((forall rd, In rd env -> due rd = false) ->
        iterations r = length env /\ exited r = false)
    /\ (forall n rd,
          nth_error env n = Some rd -> due rd = true ->
          (forall k rk, (k < n)%nat -> nth_error env k = Some rk ->
                        due rk = false) ->
          iterations r = S n /\ exited r = true)
    /\ usleep_args (trace r) = []
    /\ ~ In EvDtime (trace r)
    /\ (forall a, ~ In (EvUsleep a) (trace r)).
Proof.
  intros cpu duration tv_start env r seconds due.
  assert (Ht : trace r
               = EvPrintf 100 :: EvGettimeofday
                   :: flat_map (fun _ => [EvWorkload 1000000; EvGettimeofday])
                        (firstn (iterations r) env)).
  { subst r. unfold Binary64.loadgen, Binary64.duty_loop.
    change (negb (100 =? 100)) with false. cbn [trace iterations].
    rewrite binary64_full_loop_trace. reflexivity. }
  split; [exact Ht|]. split; [|split].
  - intros Hnone.
    destruct (binary64_no_deadline duration
                (Binary64.timeval_seconds tv_start) env Hnone) as [E I].
    split; [exact I | exact E].
  - intros n rd Hn Hrd Hbefore.
    destruct (binary64_first_deadline duration
                (Binary64.timeval_seconds tv_start) env n rd Hn Hrd Hbefore)
      as [E I].
    split; [exact I | exact E].
  - rewrite Ht. clear Ht.
    generalize (firstn (iterations r) env). intros l.
    split; [|split].
    + induction l as [|x l IH]; [reflexivity | exact IH].
    + cbn. intros [H|[H|H]]; try discriminate.
      induction l as [|x l IH]; [exact H|].
      cbn in H. destruct H as [H|[H|H]]; try discriminate. exact (IH H).
    + intros a. cbn. intros [H|[H|H]]; try discriminate.
      induction l as [|x l IH]; [exact H|].
      cbn in H. destruct H as [H|[H|H]]; try discriminate. exact (IH H).
Qed.

Lemma full_load_never_sleeps_witness :
  let env := [ Binary64.mk_reading 0 0 (mk_timeval 100 900000);
               Binary64.mk_reading 0 0 (mk_timeval 101 800000);
               Binary64.mk_reading 0 0 (mk_timeval 102 700000);
               Binary64.mk_reading 0 0 (mk_timeval 103 600000) ] in
  trace (Binary64.loadgen 0 100 2 (mk_timeval 100 0) env)
  = [ EvPrintf 100; EvGettimeofday;
      EvWorkload 1000000; EvGettimeofday;
      EvWorkload 1000000; EvGettimeofday;
      EvWorkload 1000000; EvGettimeofday ]
  /\ trace (Binary64.loadgen 0 100 0 (mk_timeval 100 0) env)
     = [ EvPrintf 100; EvGettimeofday;
         EvWorkload 1000000; EvGettimeofday;
         EvWorkload 1000000; EvGettimeofday;
         EvWorkload 1000000; EvGettimeofday;
         EvWorkload 1000000; EvGettimeofday ].
Proof.
  intros env. split.
  - destruct (full_load_never_sleeps 0 2 (mk_timeval 100 0) env)
      as [Ht [_ [Hn _]]].
    destruct (Hn 2%nat (Binary64.mk_reading 0 0 (mk_timeval 102 700000)))
      as [Hi _].
    + reflexivity.
    + vm_compute. reflexivity.
    + intros k rk Hk Hrk.
      destruct k as [|[|k]]; [| |lia]; injection Hrk as <-;
        vm_compute; reflexivity.
    + rewrite Ht, Hi. reflexivity.
  - destruct (full_load_never_sleeps 0 0 (mk_timeval 100 0) env)
      as [Ht [Hall _]].
    destruct Hall as [Hi _].
    + intros rd _. reflexivity.
    + rewrite Ht, Hi. reflexivity.
Defined.

(** C5: a duration left out on the command line is not a duration of 0.
    [main] leaves the global at -1 on both of its initialisation paths,
    [thread_loadgen] hands it to the [unsigned int] parameter of
    [loadgen], which receives 4294967295, and the loop breaks at the
    first check 4294967295 s after the start. *)
Theorem absent_duration_sets_a_deadline :
  let late := [mk_reading 0 0 (mk_timeval 4294967295 0)] in
  (exists g,
      Runner.main_init 1 [] = inl g
      /\ Runner.duration g = -1
      /\ Runner.thread_loadgen g 0 = Runner.RunLoadgen 0 100 4294967295
      /\ option_map exited (Runner.thread_run g 0 (mk_timeval 0 0) late)
         = Some true)
  /\ (exists g,
         Runner.main_init 1 [Runner.ArgCpu 0 50] = inl g
         /\ Runner.duration g = -1
         /\ Runner.thread_loadgen g 0 = Runner.RunLoadgen 0 50 4294967295
         /\ option_map exited (Runner.thread_run g 0 (mk_timeval 0 0) late)
            = Some true).
Proof.
  cbv zeta. split; eexists; repeat split; reflexivity.
Qed.

(** ** The guard of [thread_loadgen] *)

Import Runner.

(** C10: with a core count as [main] accepts it (not negative, an
    [int]), [thread_loadgen] calls [loadgen] only for an index below the
    count, and with that index; for an index at or above the count it
    reports the invalid argument and leaves without any event of load
    generation. *)
Theorem thread_loadgen_guards_loadgen :
  forall g cpu,
    0 <= cpu_count g <= INT_MAX ->
    0 <= cpu <= UINT_MAX ->
    (forall c load d,
        thread_loadgen g cpu = RunLoadgen c load d ->
        c = cpu /\ cpu < cpu_count g)
    /\ (cpu_count g <= cpu ->
        thread_loadgen g cpu = InvalidCpu cpu
        /\ forall tv env,
            option_map trace (thread_run g cpu tv env) = Some []).
Proof.
  intros g cpu Hc Hcpu.
  assert (Hu : to_uint (cpu_count g) = cpu_count g).
  { apply to_uint_small. unfold INT_MAX, UINT_MAX in *. lia. }
  split.
  - intros c load d. unfold thread_loadgen. rewrite Hu.
    destruct (cpu <? cpu_count g) eqn:E; [|discriminate].
    apply Z.ltb_lt in E.
    destruct (nth_error (cpuloads g) (Z.to_nat cpu)); [|discriminate].
    intros H. injection H as <- _ _. split; [reflexivity | exact E].
  - intros Hge.
    assert (Ht : thread_loadgen g cpu = InvalidCpu cpu).
    { unfold thread_loadgen. rewrite Hu.
      replace (cpu <? cpu_count g) with false; [reflexivity|].
      symmetry. apply Z.ltb_ge. exact Hge. }
    split; [exact Ht|].
    intros tv env. unfold thread_run. rewrite Ht. reflexivity.
Qed.

Lemma thread_loadgen_guards_loadgen_witness :
  thread_loadgen (mk_globals 2 [50; 100] 5) 2 = InvalidCpu 2
  /\ thread_loadgen (mk_globals 2 [50; 100] 5) 1 = RunLoadgen 1 100 5.
Proof.
  destruct (thread_loadgen_guards_loadgen (mk_globals 2 [50; 100] 5) 2)
    as [_ Hhigh].
  - cbn. unfold INT_MAX. lia.
  - unfold UINT_MAX. lia.
  - split.
    + apply Hhigh. cbn. lia.
    + reflexivity.
Defined.

(** ** The burst *)

Import Workload.

Section WorkloadFacts.

Variable seed : Type.
Variable rand : seed -> Z * seed.

Lemma draws_length n : forall st, length (fst (draws seed rand n st)) = n.
Proof.
  induction n as [|n IH]; intros st; [reflexivity|].
  cbn [draws]. destruct (rand st) as [v st'].
  specialize (IH st'). destruct (draws seed rand n st') as [vs st''].
  cbn in *. rewrite IH. reflexivity.
Qed.

Lemma workload_loop_draws n :
  forall fuel iterations st,
    iterations = Z.of_nat n ->
    iterations <= UINT_MAX ->
    (n < fuel)%nat ->
    workload_loop seed rand fuel iterations st = Some (draws seed rand n st).
Proof.
  induction n as [|n IH]; intros fuel iterations st Hi Hmax Hfuel.
  - destruct fuel as [|fuel]; [lia|]. subst iterations. reflexivity.
  - destruct fuel as [|fuel]; [lia|].
    cbn [workload_loop draws].
    replace (0 <? iterations) with true by (symmetry; apply Z.ltb_lt; lia).
    destruct (rand st) as [v st'].
    rewrite (IH fuel (to_uint (iterations - 1)) st').
    + destruct (draws seed rand n st'). reflexivity.
    + rewrite to_uint_small; lia.
    + pose proof (to_uint_range (iterations - 1)). lia.
    + lia.
Qed.

End WorkloadFacts.

(** C8, as amended: for every count [N] of an [unsigned int] and any
    behaviour of [rand], [workload(N)] returns after exactly [N] passes,
    each one [sqrt] of the next value of [rand]; it leaves early for no
    [N], and what it changes is the state of the generator of [rand],
    which is the state after [N] calls. *)
Theorem workload_makes_N_draws :
  forall (seed : Type) (rand : seed -> Z * seed) N st fuel,
    0 <= N <= UINT_MAX ->
    (Z.to_nat N < fuel)%nat ->
    workload_loop seed rand fuel N st
    = Some (draws seed rand (Z.to_nat N) st)
    /\ Z.of_nat (length (fst (draws seed rand (Z.to_nat N) st))) = N.
Proof.
  intros seed rand N st fuel HN Hfuel. split.
  - apply workload_loop_draws; lia.
  - rewrite draws_length. lia.
Qed.

Lemma workload_makes_N_draws_witness :
  workload_loop Z iso_rand 4 3 1
  = Some ([16838; 5758; 10113], 15426401326682203284).
Proof.
  destruct (workload_makes_N_draws Z iso_rand 3 1 4) as [H _].
  - unfold UINT_MAX. lia.
  - cbn. lia.
  - rewrite H. vm_compute. reflexivity.
Defined.

(** C8 as stated fails on "no side effects": one pass with the sample
    generator of the C standard, started from its initial seed 1, leaves
    the generator in another state. *)
Lemma workload_changes_generator_state :
  ~ (forall vs st',
        workload_loop Z iso_rand 2 1 1 = Some (vs, st') ->
        length vs = 1%nat /\ st' = 1).
Proof.
  intros H.
  destruct (H [16838] 1103527590 eq_refl) as [_ E]. discriminate.
Qed.

(** ** The hand-off of the core index *)

Import Orchestrator.

Lemma set_phase_length l : forall tid ph, length (set_phase l tid ph) = length l.
Proof.
  induction l as [|th l IH]; intros [|tid] ph; cbn; try reflexivity.
  rewrite IH. reflexivity.
Qed.

Lemma set_phase_nth l :
  forall tid ph t,
    nth_error (set_phase l tid ph) t
    = match nth_error l t with
      | Some th => Some (if Nat.eqb t tid then mk_thread (slot th) ph else th)
      | None => None
      end.
Proof.
  induction l as [|th l IH]; intros [|tid] ph [|t]; cbn; try reflexivity.
  - destruct (nth_error l t); reflexivity.
  - apply IH.
Qed.

Lemma invariant_init c cpu0 : invariant c (init c cpu0).
Proof.
  constructor; cbn; try discriminate;
    intros; repeat match goal with
                   | H : nth_error [] ?t = Some _ |- _ => destruct t; discriminate
                   end.
Qed.

(** A step of [main] that touches neither the threads, the mutex nor
    [cpu], and does not enter the hand-off. *)
Lemma invariant_move_pc c s s' :
  invariant c s ->
  pool s' = pool s -> mutex1 s' = mutex1 s -> cpu_var s' = cpu_var s ->
  in_handoff (pc s') = false ->
  (forall i', frontier (pc s') = Some i' ->
              exists i, frontier (pc s) = Some i /\ (i <= i')%nat) ->
  (forall i, spawning (pc s') = Some i ->
             Z.of_nat i < cpu_count (glob c) /\ load_of c i <> -1) ->
  invariant c s'.
Proof.
  intros [Hsl Hfr Hord Hobs Hpen Hho Hsp Hcr] Hpool Hmx Hcpu Hin Hfront Hspawn.
  constructor; rewrite ?Hpool, ?Hmx, ?Hcpu, ?Hin; try assumption.
  - intros t th i' Ht Hf.
    destruct (Hfront i' Hf) as [i [Hi Hle]].
    specialize (Hfr t th i Ht Hi). lia.
  - intros t th Ht Hp. destruct (Hpen t th Ht Hp) as [H1 [H2 [_ H4]]].
    repeat split; assumption.
  - discriminate.
  - intros i E. rewrite E in Hin. discriminate.
Qed.

Ltac pc_moved :=
  match goal with
  | Hinv : invariant ?c ?s |- invariant ?c _ =>
      apply (invariant_move_pc c s); cbn;
      [ exact Hinv | reflexivity | reflexivity | reflexivity | reflexivity
      | | ]
  end.

Lemma step_main_invariant c s s' :
  invariant c s -> step_main c s = Some s' -> invariant c s'.
Proof.
  intros Hinv. unfold step_main.
  destruct (pc s) as [i|i|i|i|i|i|] eqn:Hpc.
  - (* MFor *)
    destruct (Z.of_nat i <? cpu_count (glob c)) eqn:Hlt.
    + apply Z.ltb_lt in Hlt.
      destruct (load_of c i =? -1) eqn:Hld; intros E; injection E as <-.
      * pc_moved.
        -- intros i' E. injection E as <-. exists i. rewrite Hpc. cbn.
           split; [reflexivity | lia].
        -- discriminate.
      * apply Z.eqb_neq in Hld. pc_moved.
        -- intros i' E. injection E as <-. exists i. rewrite Hpc. cbn.
           split; [reflexivity | lia].
        -- intros i' E. injection E as <-. split; assumption.
    + intros E. injection E as <-. pc_moved; discriminate.
  - (* MLock *)
    destruct (mutex1 s) eqn:Hmx; [discriminate|].
    intros E. injection E as <-.
    destruct Hinv as [Hsl Hfr Hord Hobs Hpen Hho Hsp Hcr].
    assert (Hnone : forall t th, nth_error (pool s) t = Some th ->
                                 pre_unlock th = false).
    { intros t th Ht. destruct (pre_unlock th) eqn:Hp; [|reflexivity].
      destruct (Hpen t th Ht Hp) as [_ [Hm _]]. congruence. }
    constructor; cbn; try assumption.
    + intros t th i' Ht E. injection E as <-.
      apply (Hfr t th i Ht). rewrite Hpc. reflexivity.
    + intros t th Ht Hp. rewrite (Hnone t th Ht) in Hp. discriminate.
    + reflexivity.
    + intros i' E. injection E as <-. apply Hsp. rewrite Hpc. reflexivity.
    + discriminate.
  - (* MAssign *)
    intros E. injection E as <-.
    destruct Hinv as [Hsl Hfr Hord Hobs Hpen Hho Hsp Hcr].
    assert (Hnone : forall t th, nth_error (pool s) t = Some th ->
                                 pre_unlock th = false).
    { intros t th Ht. destruct (pre_unlock th) eqn:Hp; [|reflexivity].
      destruct (Hpen t th Ht Hp) as [_ [_ [Hh _]]].
      rewrite Hpc in Hh. discriminate. }
    constructor; cbn; try assumption.
    + intros t th i' Ht E. injection E as <-.
      apply (Hfr t th i Ht). rewrite Hpc. reflexivity.
    + intros t th Ht Hp. rewrite (Hnone t th Ht) in Hp. discriminate.
    + intros _. apply Hho. rewrite Hpc. reflexivity.
    + intros i' E. injection E as <-. apply Hsp. rewrite Hpc. reflexivity.
    + intros i' E. injection E as <-. reflexivity.
  - (* MCreate *)
    assert (Hnone : forall t th, nth_error (pool s) t = Some th ->
                                 pre_unlock th = false).
    { intros t th Ht. destruct (pre_unlock th) eqn:Hp; [|reflexivity].
      destruct (inv_pending c s Hinv t th Ht Hp) as [_ [_ [Hh _]]].
      rewrite Hpc in Hh. discriminate. }
    destruct (create_ok c i); intros E; injection E as <-.
    + destruct Hinv as [Hsl Hfr Hord Hobs Hpen Hho Hsp Hcr].
      assert (Hnew : forall t th,
                 nth_error (pool s ++ [mk_thread i TEntered]) t = Some th ->
                 (nth_error (pool s) t = Some th /\ (t < length (pool s))%nat)
                 \/ (t = length (pool s) /\ th = mk_thread i TEntered)).
      { intros t th Ht.
        destruct (Nat.lt_ge_cases t (length (pool s))) as [Hl|Hl].
        - left. rewrite nth_error_app1 in Ht by exact Hl. tauto.
        - right. rewrite nth_error_app2 in Ht by exact Hl.
          destruct (t - length (pool s))%nat as [|k] eqn:Hk.
          + cbn in Ht. injection Ht as <-. split; [lia | reflexivity].
          + cbn in Ht. destruct k; discriminate. }
      assert (Hold : forall t th, nth_error (pool s) t = Some th ->
                                  (slot th < i)%nat).
      { intros t th Ht. apply (Hfr t th i Ht). rewrite Hpc. reflexivity. }
      constructor; cbn.
      * intros t th Ht. destruct (Hnew t th Ht) as [[Ho _]|[_ ->]].
        -- exact (Hsl t th Ho).
        -- cbn. apply Hsp. rewrite Hpc. reflexivity.
      * intros t th i' Ht E. injection E as <-.
        destruct (Hnew t th Ht) as [[Ho _]|[_ ->]].
        -- specialize (Hold t th Ho). lia.
        -- cbn. lia.
      * intros t1 t2 th1 th2 H1 H2 Hlt.
        destruct (Hnew t1 th1 H1) as [[Ho1 Hl1]|[He1 ->]];
          destruct (Hnew t2 th2 H2) as [[Ho2 Hl2]|[He2 ->]].
        -- exact (Hord t1 t2 th1 th2 Ho1 Ho2 Hlt).
        -- cbn. exact (Hold t1 th1 Ho1).
        -- lia.
        -- lia.
      * intros t th v Ht Hv. destruct (Hnew t th Ht) as [[Ho _]|[_ ->]].
        -- exact (Hobs t th v Ho Hv).
        -- discriminate.
      * intros t th Ht Hp. destruct (Hnew t th Ht) as [[Ho _]|[He ->]].
        -- rewrite (Hnone t th Ho) in Hp. discriminate.
        -- rewrite length_app. cbn. repeat split.
           ++ lia.
           ++ apply Hho. rewrite Hpc. reflexivity.
           ++ intros _. apply Hcr. exact Hpc.
      * discriminate.
      * discriminate.
      * discriminate.
    + destruct Hinv as [Hsl Hfr Hord Hobs Hpen Hho Hsp Hcr].
      constructor; cbn; try assumption.
      * intros t th i' Ht E. injection E as <-.
        specialize (Hfr t th i Ht). rewrite Hpc in Hfr.
        specialize (Hfr eq_refl). lia.
      * intros t th Ht Hp. rewrite (Hnone t th Ht) in Hp. discriminate.
      * discriminate.
      * discriminate.
      * discriminate.
  - (* MJoinFor *)
    destruct (Z.of_nat i <? cpu_count (glob c)).
    + destruct (load_of c i =? -1); intros E; injection E as <-;
        pc_moved; discriminate.
    + intros E. injection E as <-. pc_moved; discriminate.
  - (* MJoin *)
    destruct (nth i (threads s) (-1) <? 0); [discriminate|].
    destruct (nth_error (pool s) (Z.to_nat (nth i (threads s) (-1))))
      as [[sl [| | |v]]|]; try discriminate;
      intros E; injection E as <-; pc_moved; discriminate.
  - discriminate.
Qed.

(** A step of a thread that moves it to phase [ph]: the table after the
    step, read through the table before it. *)
Lemma set_phase_inv l tid ph t th' :
  nth_error (set_phase l tid ph) t = Some th' ->
  exists th, nth_error l t = Some th /\ slot th' = slot th
             /\ ((t = tid /\ phase th' = ph) \/ (t <> tid /\ th' = th)).
Proof.
  rewrite set_phase_nth.
  destruct (nth_error l t) as [th|]; [|discriminate].
  intros E. injection E as <-. exists th. split; [reflexivity|].
  destruct (Nat.eqb_spec t tid) as [->|Hne]; cbn.
  - split; [reflexivity|]. left. tauto.
  - split; [reflexivity|]. right. tauto.
Qed.

Lemma step_thread_invariant c tid s s' :
  cpu_count (glob c) <= INT_MAX ->
  invariant c s -> step_thread c tid s = Some s' -> invariant c s'.
Proof.
  intros Hmax Hinv. unfold step_thread.
  destruct (nth_error (pool s) tid) as [me|] eqn:Hme; [|discriminate].
  destruct Hinv as [Hsl Hfr Hord Hobs Hpen Hho Hsp Hcr].
  destruct (phase me) as [|v|v|v] eqn:Hph; [| | |discriminate];
    intros E; injection E as <-.
  - (* cpu = *ptr *)
    assert (Hp : pre_unlock me = true) by (unfold pre_unlock; rewrite Hph; reflexivity).
    destruct (Hpen tid me Hme Hp) as [Hlast [Hmx [Hin Hcpu]]].
    constructor; cbn; rewrite ?set_phase_length; try assumption.
    + intros t th Ht.
      destruct (set_phase_inv _ _ _ _ _ Ht) as [th0 [H0 [Hs _]]].
      rewrite Hs. exact (Hsl t th0 H0).
    + intros t th i Ht Hf.
      destruct (set_phase_inv _ _ _ _ _ Ht) as [th0 [H0 [Hs _]]].
      rewrite Hs. exact (Hfr t th0 i H0 Hf).
    + intros t1 t2 th1 th2 H1 H2 Hlt.
      destruct (set_phase_inv _ _ _ _ _ H1) as [a [Ha [Hsa _]]].
      destruct (set_phase_inv _ _ _ _ _ H2) as [b [Hb [Hsb _]]].
      rewrite Hsa, Hsb. exact (Hord t1 t2 a b Ha Hb Hlt).
    + intros t th w Ht Hw.
      destruct (set_phase_inv _ _ _ _ _ Ht)
        as [th0 [H0 [Hs [[-> Hp']|[_ ->]]]]].
      * unfold observed in Hw. rewrite Hp' in Hw. injection Hw as <-.
        rewrite Hs. assert (th0 = me) by congruence. subst th0.
        rewrite (Hcpu Hph). apply to_uint_small.
        destruct (Hsl tid me Hme) as [Hlt _].
        unfold INT_MAX, UINT_MAX in *. lia.
      * exact (Hobs t th0 w H0 Hw).
    + intros t th Ht Hpre.
      destruct (set_phase_inv _ _ _ _ _ Ht)
        as [th0 [H0 [Hs [[-> Hp']|[_ ->]]]]].
      * repeat split; try assumption. rewrite Hp'. discriminate.
      * exact (Hpen t th0 H0 Hpre).
  - (* pthread_mutex_unlock *)
    assert (Hp : pre_unlock me = true) by (unfold pre_unlock; rewrite Hph; reflexivity).
    destruct (Hpen tid me Hme Hp) as [Hlast [Hmx [Hin Hcpu]]].
    constructor; cbn; rewrite ?set_phase_length; try assumption.
    + intros t th Ht.
      destruct (set_phase_inv _ _ _ _ _ Ht) as [th0 [H0 [Hs _]]].
      rewrite Hs. exact (Hsl t th0 H0).
    + intros t th i Ht Hf.
      destruct (set_phase_inv _ _ _ _ _ Ht) as [th0 [H0 [Hs _]]].
      rewrite Hs. exact (Hfr t th0 i H0 Hf).
    + intros t1 t2 th1 th2 H1 H2 Hlt.
      destruct (set_phase_inv _ _ _ _ _ H1) as [a [Ha [Hsa _]]].
      destruct (set_phase_inv _ _ _ _ _ H2) as [b [Hb [Hsb _]]].
      rewrite Hsa, Hsb. exact (Hord t1 t2 a b Ha Hb Hlt).
    + intros t th w Ht Hw.
      destruct (set_phase_inv _ _ _ _ _ Ht)
        as [th0 [H0 [Hs [[-> Hp']|[_ ->]]]]].
      * unfold observed in Hw. rewrite Hp' in Hw. injection Hw as <-.
        rewrite Hs. assert (th0 = me) by congruence. subst th0.
        apply (Hobs tid me v Hme). unfold observed. rewrite Hph. reflexivity.
      * exact (Hobs t th0 w H0 Hw).
    + intros t th Ht Hpre.
      destruct (set_phase_inv _ _ _ _ _ Ht)
        as [th0 [H0 [Hs [[-> Hp']|[Hne ->]]]]].
      * unfold pre_unlock in Hpre. rewrite Hp' in Hpre. discriminate.
      * destruct (Hpen t th0 H0 Hpre) as [Hl _]. lia.
    + intros Hh. rewrite Hh in Hin. discriminate.
  - (* the guard, [loadgen], [pthread_exit] *)
    constructor; cbn; rewrite ?set_phase_length; try assumption.
    + intros t th Ht.
      destruct (set_phase_inv _ _ _ _ _ Ht) as [th0 [H0 [Hs _]]].
      rewrite Hs. exact (Hsl t th0 H0).
    + intros t th i Ht Hf.
      destruct (set_phase_inv _ _ _ _ _ Ht) as [th0 [H0 [Hs _]]].
      rewrite Hs. exact (Hfr t th0 i H0 Hf).
    + intros t1 t2 th1 th2 H1 H2 Hlt.
      destruct (set_phase_inv _ _ _ _ _ H1) as [a [Ha [Hsa _]]].
      destruct (set_phase_inv _ _ _ _ _ H2) as [b [Hb [Hsb _]]].
      rewrite Hsa, Hsb. exact (Hord t1 t2 a b Ha Hb Hlt).
    + intros t th w Ht Hw.
      destruct (set_phase_inv _ _ _ _ _ Ht)
        as [th0 [H0 [Hs [[-> Hp']|[_ ->]]]]].
      * unfold observed in Hw. rewrite Hp' in Hw. injection Hw as <-.
        rewrite Hs. assert (th0 = me) by congruence. subst th0.
        apply (Hobs tid me v Hme). unfold observed. rewrite Hph. reflexivity.
      * exact (Hobs t th0 w H0 Hw).
    + intros t th Ht Hpre.
      destruct (set_phase_inv _ _ _ _ _ Ht)
        as [th0 [H0 [Hs [[-> Hp']|[Hne ->]]]]].
      * unfold pre_unlock in Hpre. rewrite Hp' in Hpre. discriminate.
      * exact (Hpen t th0 H0 Hpre).
Qed.

Lemma exec_invariant c sched :
  cpu_count (glob c) <= INT_MAX ->
  forall s, invariant c s -> invariant c (exec c sched s).
Proof.
  intros Hmax. induction sched as [|a sched IH]; intros s Hinv; [exact Hinv|].
  cbn [exec]. destruct (step c a s) as [s'|] eqn:Hstep.
  - apply IH. destruct a as [|tid]; cbn in Hstep.
    + exact (step_main_invariant c s s' Hinv Hstep).
    + exact (step_thread_invariant c tid s s' Hmax Hinv Hstep).
  - apply IH. exact Hinv.
Qed.

(** C6: in every interleaving of [main] and the threads it creates, a
    thread that has made its copy works with the index [i] of the
    [pthread_create] call that made it, two threads never work with the
    same index, and whenever [main] is about to write [cpu] again every
    thread created so far has already made its copy. *)
Theorem each_task_observes_its_own_core :
  forall c cpu0 sched,
    cpu_count (glob c) <= INT_MAX ->
    let s := exec c sched (init c cpu0) in
    (forall th v, In th (pool s) -> observed th = Some v ->
                  v = Z.of_nat (slot th))
    /\ (forall t1 t2 th1 th2 v1 v2,
           nth_error (pool s) t1 = Some th1 ->
           nth_error (pool s) t2 = Some th2 ->
           t1 <> t2 ->
           observed th1 = Some v1 -> observed th2 = Some v2 -> v1 <> v2)
    /\ (forall i th, pc s = MAssign i -> In th (pool s) ->
                     phase th <> TEntered).
Proof.
  intros c cpu0 sched Hmax s.
  assert (Hinv : invariant c s)
    by (apply exec_invariant; [exact Hmax | apply invariant_init]).
  destruct Hinv as [Hsl Hfr Hord Hobs Hpen Hho Hsp Hcr].
  split; [|split].
  - intros th v Hin Hv. apply In_nth_error in Hin. destruct Hin as [t Ht].
    exact (Hobs t th v Ht Hv).
  - intros t1 t2 th1 th2 v1 v2 H1 H2 Hne Hv1 Hv2 E.
    rewrite (Hobs t1 th1 v1 H1 Hv1), (Hobs t2 th2 v2 H2 Hv2) in E.
    apply Nat2Z.inj in E.
    destruct (Nat.lt_total t1 t2) as [Hlt|[Heq|Hgt]].
    + specialize (Hord t1 t2 th1 th2 H1 H2 Hlt). lia.
    + contradiction.
    + specialize (Hord t2 t1 th2 th1 H2 H1 Hgt). lia.
  - intros i th Hpc Hin Hph. apply In_nth_error in Hin. destruct Hin as [t Ht].
    assert (Hp : pre_unlock th = true)
      by (unfold pre_unlock; rewrite Hph; reflexivity).
    destruct (Hpen t th Ht Hp) as [_ [_ [Hh _]]].
    rewrite Hpc in Hh. discriminate.
Qed.

Lemma each_task_observes_its_own_core_witness :
  let c := mk_config (mk_globals 2 [50; 100] (-1)) (fun _ => true) in
  let s := exec c [AMain; AMain; AMain; AMain; AThread 0; AMain; AThread 0;
                   AMain; AMain; AMain; AThread 1; AThread 0]
             (init c 7) in
  map observed (pool s) = [Some 0; Some 1]
  /\ (forall th v, In th (pool s) -> observed th = Some v ->
                   v = Z.of_nat (slot th)).
Proof.
  intros c s. split.
  - vm_compute. reflexivity.
  - apply (each_task_observes_its_own_core c 7). cbn. unfold INT_MAX. lia.
Defined.

(** ** Which cores get a task *)

(** X17: whatever the schedule and the outcome of the [pthread_create]
    calls, a thread exists only for a core below the count that has a load
    assigned, and no core has two. *)
Lemma tasks_only_for_loaded_cores :
  forall c cpu0 sched,
    cpu_count (glob c) <= INT_MAX ->
    let s := exec c sched (init c cpu0) in
    (forall i, In i (started s) ->
               Z.of_nat i < cpu_count (glob c) /\ load_of c i <> -1)
    /\ NoDup (started s).
Proof.
  intros c cpu0 sched Hmax s.
  assert (Hinv : invariant c s)
    by (apply exec_invariant; [exact Hmax | apply invariant_init]).
  destruct Hinv as [Hsl _ Hord _ _ _ _ _].
  split.
  - intros i Hin. unfold started in Hin. apply in_map_iff in Hin.
    destruct Hin as [th [<- Hth]]. apply In_nth_error in Hth.
    destruct Hth as [t Ht]. exact (Hsl t th Ht).
  - unfold started. apply (NoDup_nth_error (map slot (pool s))).
    intros t1 t2 Hlt E. rewrite length_map in Hlt.
    destruct (nth_error (pool s) t1) as [th1|] eqn:H1;
      [|apply nth_error_None in H1; lia].
    rewrite !nth_error_map, H1 in E. cbn in E.
    destruct (nth_error (pool s) t2) as [th2|] eqn:H2; [|discriminate].
    cbn in E. injection E as E.
    destruct (Nat.lt_total t1 t2) as [Hl|[Heq|Hg]]; [|exact Heq|].
    + specialize (Hord t1 t2 th1 th2 H1 H2 Hl). lia.
    + specialize (Hord t2 t1 th2 th1 H2 H1 Hg). lia.
Qed.

(** Once [main] waits for [mutex1] with no thread left to release it,
    nothing moves any more. *)
Lemma main_blocked_for_good c s i :
  pc s = MLock i -> mutex1 s = true -> pool s = [] ->
  forall sched, exec c sched s = s.
Proof.
  intros Hpc Hmx Hpool sched.
  induction sched as [|a sched IH]; [reflexivity|].
  cbn [exec].
  replace (step c a s) with (@None state); [exact IH|].
  destruct a as [|tid]; cbn.
  - unfold step_main. rewrite Hpc, Hmx. reflexivity.
  - unfold step_thread. rewrite Hpool. destruct tid; reflexivity.
Qed.


(** ** Book-keeping of the fan-out *)

Lemma loaded_S c i :
  loaded c (S i)
  = loaded c i ++ (if load_of c i =? -1 then [] else [i]).
Proof.
  unfold loaded. rewrite seq_S, filter_app. cbn.
  destruct (load_of c i =? -1); reflexivity.
Qed.

Lemma created_S c i :
  created c (S i)
  = created c i
      ++ (if load_of c i =? -1 then []
          else if create_ok c i then [i] else []).
Proof.
  unfold created. rewrite loaded_S, filter_app.
  destruct (load_of c i =? -1); [reflexivity|].
  cbn. destruct (create_ok c i); reflexivity.
Qed.

Lemma index_of_app k i l :
  index_of k (l ++ [i])
  = match index_of k l with
    | Some t => Some t
    | None => if Nat.eqb i k then Some (length l) else None
    end.
Proof.
  induction l as [|x l IH]; cbn.
  - destruct (Nat.eqb i k); reflexivity.
  - destruct (Nat.eqb x k); [reflexivity|]. rewrite IH.
    destruct (index_of k l); [reflexivity|].
    destruct (Nat.eqb i k); reflexivity.
Qed.

Lemma index_of_bound k l t : index_of k l = Some t -> (t < length l)%nat.
Proof.
  revert t. induction l as [|x l IH]; intros t; cbn; [discriminate|].
  destruct (Nat.eqb x k).
  - intros E. injection E as <-. lia.
  - destruct (index_of k l) as [t0|]; [|discriminate].
    cbn. intros E. injection E as <-. specialize (IH t0 eq_refl). lia.
Qed.

Lemma index_of_fresh i l :
  (forall x, In x l -> (x < i)%nat) -> index_of i l = None.
Proof.
  induction l as [|x l IH]; intros H; [reflexivity|]. cbn.
  destruct (Nat.eqb_spec x i) as [->|Hne].
  - specialize (H i (or_introl eq_refl)). lia.
  - rewrite IH; [reflexivity|]. intros y Hy. apply H. right. exact Hy.
Qed.

Lemma store_length a : forall n v, length (store a n v) = length a.
Proof.
  induction a as [|x a IH]; intros [|n] v; cbn; try reflexivity.
  rewrite IH. reflexivity.
Qed.

Lemma store_nth a :
  forall n v k,
    (n < length a)%nat ->
    nth k (store a n v) (-1) = if Nat.eqb k n then v else nth k a (-1).
Proof.
  induction a as [|x a IH]; intros [|n] v [|k] Hn; cbn in *;
    try reflexivity; try lia.
  apply IH. lia.
Qed.

Lemma set_phase_slots l : forall tid ph, map slot (set_phase l tid ph) = map slot l.
Proof.
  induction l as [|th l IH]; intros [|tid] ph; cbn; try reflexivity.
  rewrite IH. reflexivity.
Qed.

Lemma ncpu_lt c i : Z.of_nat i < cpu_count (glob c) <-> (i < ncpu c)%nat.
Proof. unfold ncpu. lia. Qed.

Lemma fanout_init c cpu0 : fanout c (init c cpu0).
Proof.
  constructor; cbn; try reflexivity.
  - lia.
  - discriminate.
  - apply repeat_length.
  - intros k Hk. unfold handle_of. cbn.
    apply nth_repeat_lt. exact Hk.
  - intros jc [].
Qed.

(** A step that leaves the thread table, [threads] and the join record
    as they are, and moves [main] without passing a core. *)
Lemma fanout_same c s s' :
  fanout c s ->
  started s' = started s -> threads s' = threads s -> joins s' = joins s ->
  spawn_done c (pc s') = spawn_done c (pc s) ->
  join_done c (pc s') = join_done c (pc s) ->
  (forall j, pc s' = MJoin j -> (j < ncpu c)%nat /\ load_of c j <> -1) ->
  fanout c s'.
Proof.
  intros [Hst Hb Hj Hl Hth Hjs Hjd] Es Et Ej Esp Ejd Hnew.
  constructor; unfold handle_of in *;
    rewrite ?Es, ?Et, ?Ej, ?Esp, ?Ejd; assumption.
Qed.

Lemma step_thread_fanout c tid s s' :
  fanout c s -> step_thread c tid s = Some s' -> fanout c s'.
Proof.
  intros Hf. unfold step_thread.
  destruct (nth_error (pool s) tid) as [me|]; [|discriminate].
  destruct (phase me); try discriminate;
    intros E; injection E as <-;
    (apply (fanout_same c s); cbn;
     [ exact Hf | unfold started; cbn; apply set_phase_slots
     | reflexivity | reflexivity | reflexivity | reflexivity
     | exact (fo_joining c s Hf) ]).
Qed.

Ltac fo_cbn :=
  cbn [pc cpu_var mutex1 pool threads joins
       spawn_done join_done frontier set_pc] in *.

Lemma step_main_fanout c s s' :
  invariant c s -> fanout c s -> step_main c s = Some s' -> fanout c s'.
Proof.
  intros Hinv Hf. unfold step_main.
  destruct (pc s) as [i|i|i|i|j|j|] eqn:Hpc.
  - (* MFor *)
    destruct Hf as [Hst Hb Hj Hl Hth Hjs Hjd].
    rewrite Hpc in Hst, Hb, Hjs. fo_cbn.
    destruct (Z.of_nat i <? cpu_count (glob c)) eqn:Hlt.
    + apply Z.ltb_lt, ncpu_lt in Hlt.
      destruct (load_of c i =? -1) eqn:Hld; intros E; injection E as <-.
      * constructor; fo_cbn; try assumption; try lia; try discriminate.
        rewrite created_S, Hld, app_nil_r. exact Hst.
      * constructor; fo_cbn; try assumption; try lia; discriminate.
    + apply Z.ltb_ge in Hlt.
      assert (i = ncpu c) by (unfold ncpu in *; lia). subst i.
      intros E. injection E as <-.
      constructor; fo_cbn; try assumption; try lia; discriminate.
  - (* MLock *)
    destruct (mutex1 s); [discriminate|]. intros E. injection E as <-.
    apply (fanout_same c s); fo_cbn; rewrite ?Hpc; try reflexivity;
      [exact Hf | discriminate].
  - (* MAssign *)
    intros E. injection E as <-.
    apply (fanout_same c s); fo_cbn; rewrite ?Hpc; try reflexivity;
      [exact Hf | discriminate].
  - (* MCreate *)
    destruct (inv_spawning c s Hinv i) as [Hi Hld];
      [rewrite Hpc; reflexivity|].
    apply ncpu_lt in Hi. apply Z.eqb_neq in Hld.
    assert (Hfresh : index_of i (started s) = None).
    { apply index_of_fresh. intros x Hx. unfold started in Hx.
      apply in_map_iff in Hx. destruct Hx as [th [<- Hth]].
      apply In_nth_error in Hth. destruct Hth as [t Ht].
      apply (inv_slot_frontier c s Hinv t th i Ht).
      rewrite Hpc. reflexivity. }
    destruct Hf as [Hst Hb Hj Hl Hth Hjs Hjd].
    rewrite Hpc in Hst, Hb, Hjs. fo_cbn.
    assert (Hnoj : joins s = [])
      by (destruct (joins s); [reflexivity | discriminate]).
    assert (Hlen : length (started s) = length (pool s))
      by (unfold started; apply length_map).
    destruct (create_ok c i) eqn:Hok; intros E; injection E as <-.
    + assert (Hst' : started (mk_state (MFor (S i)) (cpu_var s) (mutex1 s)
                                (pool s ++ [mk_thread i TEntered])
                                (store (threads s) i
                                   (Z.of_nat (length (pool s))))
                                (joins s))
                     = started s ++ [i]).
      { unfold started. fo_cbn. apply map_app. }
      constructor; unfold handle_of; rewrite ?Hst'; fo_cbn;
        try assumption; try lia; try discriminate.
      * rewrite Hst, created_S, Hld, Hok. reflexivity.
      * rewrite store_length. exact Hl.
      * intros k Hk. rewrite store_nth by lia.
        rewrite index_of_app.
        destruct (Nat.eqb_spec k i) as [->|Hne].
        -- rewrite Hfresh, Nat.eqb_refl, Hlen. reflexivity.
        -- rewrite (Hth k Hk). unfold handle_of.
           destruct (index_of k (started s)); [reflexivity|].
           destruct (Nat.eqb_spec i k); [congruence | reflexivity].
      * rewrite Hnoj. intros jc [].
    + constructor; fo_cbn; try assumption; try lia; try discriminate.
      rewrite created_S, Hld, Hok, app_nil_r. exact Hst.
  - (* MJoinFor *)
    destruct Hf as [Hst Hb Hj Hl Hth Hjs Hjd].
    rewrite Hpc in Hst, Hb, Hjs. fo_cbn.
    destruct (Z.of_nat j <? cpu_count (glob c)) eqn:Hlt.
    + apply Z.ltb_lt, ncpu_lt in Hlt.
      destruct (load_of c j =? -1) eqn:Hld; intros E; injection E as <-.
      * constructor; fo_cbn; try assumption; try lia; try discriminate.
        rewrite loaded_S, Hld, app_nil_r. exact Hjs.
      * apply Z.eqb_neq in Hld.
        constructor; fo_cbn; try assumption; try lia.
        intros j' E. injection E as <-. split; assumption.
    + apply Z.ltb_ge in Hlt.
      assert (j = ncpu c) by (unfold ncpu in *; lia). subst j.
      intros E. injection E as <-.
      constructor; fo_cbn; try assumption; try lia; discriminate.
  - (* MJoin *)
    destruct Hf as [Hst Hb Hj Hl Hth Hjs Hjd].
    destruct (Hj j Hpc) as [Hlt Hld]. apply Z.eqb_neq in Hld.
    rewrite Hpc in Hst, Hb, Hjs. fo_cbn.
    rewrite (Hth j Hlt). unfold handle_of.
    assert (Hgoal : forall r,
               r = index_of j (started s) ->
               fanout c (mk_state (MJoinFor (S j)) (cpu_var s) (mutex1 s)
                           (pool s) (threads s)
                           (joins s ++ [mk_join j r]))).
    { intros r Hr.
      constructor; fo_cbn; try assumption; try lia; try discriminate.
      - rewrite map_app, Hjs, loaded_S, Hld. reflexivity.
      - intros jc Hin. apply in_app_or in Hin.
        destruct Hin as [Hin|[<-|[]]]; [exact (Hjd jc Hin) | exact Hr]. }
    destruct (index_of j (started s)) as [t|] eqn:Hidx.
    + replace (Z.of_nat t <? 0) with false by (symmetry; apply Z.ltb_ge; lia).
      rewrite Nat2Z.id.
      apply index_of_bound in Hidx. unfold started in Hidx.
      rewrite length_map in Hidx.
      destruct (nth_error (pool s) t) as [[sl ph]|] eqn:Hnth;
        [|apply nth_error_None in Hnth; lia].
      destruct ph; try discriminate.
      intros E. injection E as <-. apply Hgoal. reflexivity.
    + change (-1 <? 0) with true. cbv iota. discriminate.
  - discriminate.
Qed.

Lemma exec_fanout c sched :
  cpu_count (glob c) <= INT_MAX ->
  forall s, invariant c s -> fanout c s -> fanout c (exec c sched s).
Proof.
  intros Hmax. induction sched as [|a sched IH]; intros s Hinv Hf; [exact Hf|].
  cbn [exec]. destruct (step c a s) as [s'|] eqn:Hstep; [|apply IH; assumption].
  destruct a as [|tid]; cbn in Hstep.
  - apply IH.
    + exact (step_main_invariant c s s' Hinv Hstep).
    + exact (step_main_fanout c s s' Hinv Hf Hstep).
  - apply IH.
    + exact (step_thread_invariant c tid s s' Hmax Hinv Hstep).
    + exact (step_thread_fanout c tid s s' Hf Hstep).
Qed.

(** A thread that [main] has created passes the guard of
    [thread_loadgen]: it calls [loadgen] for its own core, with the load
    assigned to that core. *)
Lemma spawned_task_runs_loadgen :
  forall c cpu0 sched,
    0 <= cpu_count (glob c) <= INT_MAX ->
    length (cpuloads (glob c)) = ncpu c ->
    let s := exec c sched (init c cpu0) in
    forall th v,
      In th (pool s) -> observed th = Some v ->
      thread_loadgen (glob c) v
      = RunLoadgen (Z.of_nat (slot th))
          (to_uint (load_of c (slot th))) (to_uint (duration (glob c)))
      /\ load_of c (slot th) <> -1.
Proof.
  intros c cpu0 sched Hc Hlen s th v Hin Hv.
  assert (Hinv : invariant c s)
    by (apply exec_invariant; [lia | apply invariant_init]).
  apply In_nth_error in Hin. destruct Hin as [t Ht].
  destruct (inv_slot_loaded c s Hinv t th Ht) as [Hlt Hld].
  rewrite (inv_observed c s Hinv t th v Ht Hv).
  split; [|exact Hld].
  unfold thread_loadgen.
  rewrite to_uint_small by (unfold INT_MAX, UINT_MAX in *; lia).
  replace (Z.of_nat (slot th) <? cpu_count (glob c)) with true
    by (symmetry; apply Z.ltb_lt; exact Hlt).
  rewrite Nat2Z.id.
  rewrite (nth_error_nth' (cpuloads (glob c)) (-1))
    by (rewrite Hlen; apply ncpu_lt; exact Hlt).
  reflexivity.
Qed.

(** X18: when [main] has got past its join loop: the threads that exist are
    those of the cores with a load whose [pthread_create] succeeded, in
    order; [pthread_join] was called once for every core with a load, in
    order; and each call named the thread created for its core when there
    is one, and no thread otherwise.  With every [pthread_create]
    succeeding, that is one thread per core with a load and one join per
    thread. *)
Lemma fan_out_at_the_end :
  forall c cpu0 sched,
    cpu_count (glob c) <= INT_MAX ->
    let s := exec c sched (init c cpu0) in
    pc s = MDone ->
    started s = created c (ncpu c)
    /\ map join_slot (joins s) = loaded c (ncpu c)
    /\ (forall jc, In jc (joins s) ->
                   joined jc = index_of (join_slot jc) (started s))
    /\ ((forall i, create_ok c i = true) ->
        started s = loaded c (ncpu c)
        /\ forall jc, In jc (joins s) ->
             exists t th, joined jc = Some t
                          /\ nth_error (pool s) t = Some th
                          /\ slot th = join_slot jc).
Proof.
  intros c cpu0 sched Hmax s Hpc.
  assert (Hf : fanout c s).
  { apply exec_fanout; [exact Hmax | apply invariant_init | apply fanout_init]. }
  destruct Hf as [Hst Hb Hj Hl Hth Hjs Hjd].
  rewrite Hpc in Hst, Hjs. cbn [spawn_done join_done frontier] in Hst, Hjs.
  split; [exact Hst|]. split; [exact Hjs|]. split; [exact Hjd|].
  intros Hok.
  assert (Hall : started s = loaded c (ncpu c)).
  { rewrite Hst. unfold created. apply forallb_filter_id.
    apply forallb_forall. intros x _. apply Hok. }
  split; [exact Hall|].
  intros jc Hin.
  assert (Hslot : In (join_slot jc) (started s)).
  { rewrite Hall, <- Hjs. apply in_map. exact Hin. }
  rewrite (Hjd jc Hin).
  clear - Hslot. unfold started in *.
  induction (pool s) as [|th l IH]; [destruct Hslot|].
  cbn. destruct (Nat.eqb_spec (slot th) (join_slot jc)) as [E|Hne].
  - exists O, th. repeat split. exact E.
  - destruct Hslot as [E|Hs]; [contradiction|].
    destruct (IH Hs) as [t [th' [Ht [Hn Hsl]]]].
    exists (S t), th'. rewrite Ht. repeat split; assumption.
Qed.

(** C9: what [main] does when a [pthread_create] fails.  (1) One core
    with a load of 100 whose thread cannot be created: no thread exists,
    and [main] goes on into its join loop and calls [pthread_join] on
    [threads[0]], which still holds -1 and names no thread: a call that
    is undefined.  (2) Two cores with a load, the first creation failing:
    [main] keeps [mutex1] locked and blocks on it at the second core;
    under every schedule no thread exists and [main] never gets to its
    join loop, so the second core never has its thread. *)
Theorem join_and_spawn_after_failed_create :
  (let c := mk_config (mk_globals 1 [100] (-1)) (fun _ => false) in
   let s := exec c (repeat AMain 6) (init c 0) in
   pc s = MJoin 0 /\ pool s = [] /\ threads s = [-1] /\ joins s = []
   /\ join_undefined s = true /\ step c AMain s = None)
  /\ (let c := mk_config (mk_globals 2 [100; 100] (-1))
                 (fun i => negb (Nat.eqb i 0)) in
      load_of c 1 = 100
      /\ create_ok c 1 = true
      /\ (let s := exec c (repeat AMain 5) (init c 0) in
          pc s = MLock 1 /\ mutex1 s = true)
      /\ forall sched,
          let s := exec c sched (init c 0) in
          pool s = [] /\ joins s = [] /\ pc s <> MDone).
Proof.
  split.
  - cbv zeta. repeat split; reflexivity.
  - cbv zeta. split; [reflexivity|]. split; [reflexivity|].
    split; [split; reflexivity|].
    set (c := mk_config (mk_globals 2 [100; 100] (-1))
                (fun i => negb (Nat.eqb i 0))).
    set (at_pc := fun p m => mk_state p 0 m [] [-1; -1] []).
    set (chain := [at_pc (MFor 0) false; at_pc (MLock 0) false;
                   at_pc (MAssign 0) true; at_pc (MCreate 0) true;
                   at_pc (MFor 1) true; at_pc (MLock 1) true]).
    assert (Hchain : forall sched s, In s chain -> In (exec c sched s) chain).
    { induction sched as [|a sched IH]; intros s Hs; [exact Hs|].
      cbn [exec]. destruct (step c a s) as [s'|] eqn:E; [|exact (IH s Hs)].
      apply IH.
      destruct a as [|tid].
      - cbn in Hs. decompose [or] Hs; try contradiction; subst s;
          cbn in E; try discriminate; injection E as <-; cbn; tauto.
      - cbn in Hs. decompose [or] Hs; try contradiction; subst s;
          destruct tid; discriminate. }
    intros sched.
    specialize (Hchain sched (init c 0) (or_introl eq_refl)).
    cbn in Hchain. decompose [or] Hchain; try contradiction;
      match goal with H : _ = exec _ _ _ |- _ => rewrite <- H end;
      repeat split; try reflexivity; discriminate.
Qed.


(** * Further properties *)

(** ** Argument handling *)

Lemma store_beyond a : forall n v, (length a <= n)%nat -> store a n v = a.
Proof.
  induction a as [|x a IH]; intros [|n] v H; cbn in *; try reflexivity; try lia.
  rewrite IH by lia. reflexivity.
Qed.

Lemma store_nth_other a :
  forall n v k, k <> n -> nth k (store a n v) (-1) = nth k a (-1).
Proof.
  induction a as [|x a IH]; intros [|n] v [|k] H; cbn; try reflexivity;
    try congruence.
  apply IH. congruence.
Qed.

Lemma store_nth_same a n v :
  (n < length a)%nat -> nth n (store a n v) (-1) = v.
Proof.
  intros H. rewrite store_nth by exact H. rewrite Nat.eqb_refl. reflexivity.
Qed.

Lemma store_comm a :
  forall n1 v1 n2 v2,
    n1 <> n2 -> store (store a n1 v1) n2 v2 = store (store a n2 v2) n1 v1.
Proof.
  induction a as [|x a IH]; intros [|n1] v1 [|n2] v2 H; cbn;
    try reflexivity; try congruence.
  rewrite IH by congruence. reflexivity.
Qed.

Lemma parse_args_swap a b rest g :
  parse_args (a :: b :: rest) g = parse_args (b :: a :: rest) g.
Proof.
  destruct g as [cc loads dur].
  destruct a as [n1 l1|d1|], b as [n2 l2|d2|];
    cbn [parse_args cpu_count cpuloads duration].
  - (* two loads *)
    destruct ((n1 <? 0) || (cc <=? n1) || (l1 <? 1) || (100 <? l1)) eqn:B1;
      destruct ((n2 <? 0) || (cc <=? n2) || (l2 <? 1) || (100 <? l2)) eqn:B2;
      cbn [negb].
    + reflexivity.
    + destruct (negb (nth (Z.to_nat n2) loads (-1) =? -1)); reflexivity.
    + destruct (negb (nth (Z.to_nat n1) loads (-1) =? -1)); reflexivity.
    + assert (H1 : 0 <= n1 /\ 1 <= l1) by lia.
      assert (H2 : 0 <= n2 /\ 1 <= l2) by lia.
      destruct (Nat.eq_dec (Z.to_nat n1) (Z.to_nat n2)) as [E|Hne].
      * rewrite <- E.
        destruct (nth (Z.to_nat n1) loads (-1) =? -1) eqn:N1; [|reflexivity].
        cbn [negb].
        destruct (Nat.lt_ge_cases (Z.to_nat n1) (length loads)) as [Hl|Hl].
        -- rewrite !store_nth_same by exact Hl.
           replace (l1 =? -1) with false by (symmetry; apply Z.eqb_neq; lia).
           replace (l2 =? -1) with false by (symmetry; apply Z.eqb_neq; lia).
           reflexivity.
        -- rewrite !store_beyond by exact Hl. rewrite N1. reflexivity.
      * rewrite (store_nth_other loads (Z.to_nat n1) l1 (Z.to_nat n2))
          by congruence.
        rewrite (store_nth_other loads (Z.to_nat n2) l2 (Z.to_nat n1))
          by congruence.
        destruct (nth (Z.to_nat n1) loads (-1) =? -1);
          destruct (nth (Z.to_nat n2) loads (-1) =? -1); cbn [negb];
          try reflexivity.
        rewrite store_comm by exact Hne. reflexivity.
  - (* a load, then a duration *)
    destruct ((n1 <? 0) || (cc <=? n1) || (l1 <? 1) || (100 <? l1));
      destruct (d2 <? 1); try reflexivity;
      destruct (negb (nth (Z.to_nat n1) loads (-1) =? -1));
      destruct (negb (dur =? -1)); reflexivity.
  - destruct ((n1 <? 0) || (cc <=? n1) || (l1 <? 1) || (100 <? l1));
      [reflexivity|].
    destruct (negb (nth (Z.to_nat n1) loads (-1) =? -1)); reflexivity.
  - destruct ((n2 <? 0) || (cc <=? n2) || (l2 <? 1) || (100 <? l2));
      destruct (d1 <? 1); try reflexivity;
      destruct (negb (nth (Z.to_nat n2) loads (-1) =? -1));
      destruct (negb (dur =? -1)); reflexivity.
  - (* two durations: the second one is always refused *)
    destruct (d1 <? 1) eqn:D1; destruct (d2 <? 1) eqn:D2; try reflexivity.
    + destruct (negb (dur =? -1)); reflexivity.
    + destruct (negb (dur =? -1)); reflexivity.
    + destruct (negb (dur =? -1)); [reflexivity|].
      replace (d1 =? -1) with false by (symmetry; apply Z.eqb_neq; lia).
      replace (d2 =? -1) with false by (symmetry; apply Z.eqb_neq; lia).
      reflexivity.
  - destruct (d1 <? 1); [reflexivity|].
    destruct (negb (dur =? -1)); reflexivity.
  - destruct ((n2 <? 0) || (cc <=? n2) || (l2 <? 1) || (100 <? l2));
      [reflexivity|].
    destruct (negb (nth (Z.to_nat n2) loads (-1) =? -1)); reflexivity.
  - destruct (d2 <? 1); [reflexivity|].
    destruct (negb (dur =? -1)); reflexivity.
  - reflexivity.
Qed.

Lemma parse_args_permutation args args' :
  Permutation args args' ->
  forall g, parse_args args g = parse_args args' g.
Proof.
  induction 1 as [|a l l' Hp IH|a b l|l l' l'' H1 IH1 H2 IH2]; intros g.
  - reflexivity.
  - destruct a as [n load|d|]; cbn [parse_args].
    + destruct ((n <? 0) || (cpu_count g <=? n) || (load <? 1) || (100 <? load));
        [reflexivity|].
      destruct (negb (nth (Z.to_nat n) (cpuloads g) (-1) =? -1));
        [reflexivity | apply IH].
    + destruct (d <? 1); [reflexivity|].
      destruct (negb (duration g =? -1)); [reflexivity | apply IH].
    + reflexivity.
  - apply parse_args_swap.
  - rewrite IH1. apply IH2.
Qed.

(** X1: the arguments may come in any order: two command lines that are
    permutations of one another are both refused, or both accepted with
    the same loads and the same duration. *)
Theorem arguments_in_any_order :
  forall ncpu args args',
    Permutation args args' ->
    main_init ncpu args = main_init ncpu args'.
Proof.
  intros ncpu args args' Hp. unfold main_init.
  destruct args as [|a args].
  - apply Permutation_nil in Hp. subst args'. reflexivity.
  - destruct args' as [|a' args'].
    + apply Permutation_sym, Permutation_nil in Hp. discriminate.
    + apply parse_args_permutation. exact Hp.
Qed.

Lemma arguments_in_any_order_witness :
  main_init 4 [ArgCpu 3 100; ArgCpu 1 50; ArgDuration 5]
  = main_init 4 [ArgDuration 5; ArgCpu 1 50; ArgCpu 3 100]
  /\ main_init 4 [ArgDuration 5; ArgCpu 1 50; ArgCpu 3 100]
     = inl (mk_globals 4 [-1; 50; -1; 100] 5).
Proof.
  split.
  - apply arguments_in_any_order.
    apply Permutation_trans with [ArgCpu 1 50; ArgCpu 3 100; ArgDuration 5].
    + apply perm_swap.
    + apply Permutation_trans with [ArgCpu 1 50; ArgDuration 5; ArgCpu 3 100].
      * apply perm_skip, perm_swap.
      * apply perm_swap.
  - reflexivity.
Defined.

Lemma parse_args_app l1 l2 :
  forall g,
    parse_args (l1 ++ l2) g
    = match parse_args l1 g with
      | inl g' => parse_args l2 g'
      | inr e => inr e
      end.
Proof.
  induction l1 as [|a l1 IH]; intros g; [reflexivity|].
  destruct a as [n load|d|]; cbn [app parse_args].
  - destruct ((n <? 0) || (cpu_count g <=? n) || (load <? 1) || (100 <? load));
      [reflexivity|].
    destruct (negb (nth (Z.to_nat n) (cpuloads g) (-1) =? -1));
      [reflexivity | apply IH].
  - destruct (d <? 1); [reflexivity|].
    destruct (negb (duration g =? -1)); [reflexivity | apply IH].
  - reflexivity.
Qed.

(** What an accepted argument list has done to the globals. *)
Lemma parse_args_result args :
  forall g0 g,
    parse_args args g0 = inl g ->
    cpu_count g = cpu_count g0
    /\ length (cpuloads g) = length (cpuloads g0)
    /\ (forall n l, In (ArgCpu n l) args ->
          0 <= n < cpu_count g0 /\ 1 <= l <= 100
          /\ nth (Z.to_nat n) (cpuloads g0) (-1) = -1
          /\ ((Z.to_nat n < length (cpuloads g0))%nat ->
              nth (Z.to_nat n) (cpuloads g) (-1) = l))
    /\ (forall i, (forall l, ~ In (ArgCpu (Z.of_nat i) l) args) ->
                  nth i (cpuloads g) (-1) = nth i (cpuloads g0) (-1))
    /\ (forall d, In (ArgDuration d) args ->
                  1 <= d /\ duration g0 = -1 /\ duration g = d)
    /\ ((forall d, ~ In (ArgDuration d) args) -> duration g = duration g0)
    /\ ~ In ArgOther args.
Proof.
  induction args as [|a args IH]; intros g0 g Hp.
  - injection Hp as <-.
    repeat split; intros; cbn in *; try contradiction; try reflexivity.
    intros [].
  - destruct a as [n load|d|]; cbn [parse_args] in Hp; [| |discriminate].
    + destruct ((n <? 0) || (cpu_count g0 <=? n) || (load <? 1) || (100 <? load))
        eqn:B; [discriminate|].
      destruct (nth (Z.to_nat n) (cpuloads g0) (-1) =? -1) eqn:N;
        [|discriminate].
      cbn [negb] in Hp. apply Z.eqb_eq in N.
      assert (Hv : 0 <= n < cpu_count g0 /\ 1 <= load <= 100) by lia.
      destruct (IH _ _ Hp) as [Hc [Hl [Hcpu [Hkeep [Hdur [Hnodur Hoth]]]]]].
      cbn [cpu_count cpuloads duration] in *.
      rewrite store_length in *.
      assert (Hfresh : (Z.to_nat n < length (cpuloads g0))%nat ->
                       forall l', ~ In (ArgCpu n l') args).
      { intros Hlt l' Hin. destruct (Hcpu n l' Hin) as [_ [_ [Hm _]]].
        rewrite store_nth_same in Hm by exact Hlt. lia. }
      split; [exact Hc|]. split; [exact Hl|]. split; [|split; [|split; [|split]]].
      * intros n' l' [E|Hin].
        -- injection E as <- <-. split; [lia|]. split; [lia|].
           split; [exact N|]. intros Hlt.
           rewrite Hkeep.
           ++ apply store_nth_same. exact Hlt.
           ++ rewrite Z2Nat.id by lia. apply Hfresh. exact Hlt.
        -- destruct (Hcpu n' l' Hin) as [Hn' [Hl' [Hm Hset]]].
           split; [exact Hn'|]. split; [exact Hl'|].
           destruct (Nat.eq_dec (Z.to_nat n') (Z.to_nat n)) as [E|Hne].
           ++ assert (n' = n) by lia. subst n'.
              destruct (Nat.lt_ge_cases (Z.to_nat n) (length (cpuloads g0)))
                as [Hlt|Hge].
              ** exfalso. exact (Hfresh Hlt l' Hin).
              ** split; [exact N|]. intros Hlt. lia.
           ++ rewrite store_nth_other in Hm by exact Hne.
              split; [exact Hm | exact Hset].
      * intros i Hno. rewrite Hkeep.
        -- apply store_nth_other. intros E. subst i.
           apply (Hno load). left. rewrite Z2Nat.id by lia. reflexivity.
        -- intros l' Hin. apply (Hno l'). right. exact Hin.
      * intros d [E|Hin]; [discriminate | exact (Hdur d Hin)].
      * intros Hno. apply Hnodur. intros d Hin. apply (Hno d). right. exact Hin.
      * intros [E|Hin]; [discriminate | exact (Hoth Hin)].
    + destruct (d <? 1) eqn:D; [discriminate|].
      destruct (duration g0 =? -1) eqn:N; [|discriminate].
      cbn [negb] in Hp. apply Z.eqb_eq in N.
      destruct (IH _ _ Hp) as [Hc [Hl [Hcpu [Hkeep [Hdur [Hnodur Hoth]]]]]].
      cbn [cpu_count cpuloads duration] in *.
      assert (Hfresh : forall d', ~ In (ArgDuration d') args).
      { intros d' Hin. destruct (Hdur d' Hin) as [_ [Hm _]]. lia. }
      split; [exact Hc|]. split; [exact Hl|]. split; [|split; [|split; [|split]]].
      * intros n' l' [E|Hin]; [discriminate | exact (Hcpu n' l' Hin)].
      * intros i Hno. apply Hkeep. intros l' Hin. apply (Hno l'). right.
        exact Hin.
      * intros d' [E|Hin].
        -- injection E as <-. split; [lia|]. split; [exact N|].
           apply Hnodur. exact Hfresh.
        -- exfalso. exact (Hfresh d' Hin).
      * intros Hno. exfalso. apply (Hno d). left. reflexivity.
      * intros [E|Hin]; [discriminate | exact (Hoth Hin)].
Qed.

Lemma parse_args_second_load g0 l1 l2 l3 n a b :
  length (cpuloads g0) = Z.to_nat (cpu_count g0) ->
  parse_args (l1 ++ ArgCpu n a :: l2 ++ ArgCpu n b :: l3) g0 = inr EINVAL.
Proof.
  intros Hinit.
  destruct (parse_args (l1 ++ ArgCpu n a :: l2 ++ ArgCpu n b :: l3) g0)
    as [g|[]] eqn:E; [|reflexivity].
  exfalso.
  destruct (parse_args_result _ _ _ E) as [_ [_ [Hcpu _]]].
  assert (Ha : In (ArgCpu n a) (l1 ++ ArgCpu n a :: l2 ++ ArgCpu n b :: l3))
    by (apply in_or_app; right; left; reflexivity).
  destruct (Hcpu n a Ha) as [Hn _].
  rewrite parse_args_app in E.
  destruct (parse_args l1 g0) as [g1|] eqn:E1; [|discriminate].
  destruct (parse_args_result _ _ _ E1) as [Hc1 [Hl1 _]].
  cbn [parse_args] in E.
  destruct ((n <? 0) || (cpu_count g1 <=? n) || (a <? 1) || (100 <? a))
    eqn:B; [discriminate|].
  destruct (negb (nth (Z.to_nat n) (cpuloads g1) (-1) =? -1));
    [discriminate|].
  destruct (parse_args_result _ _ _ E) as [_ [_ [Hcpu2 _]]].
  cbn [cpuloads cpu_count] in Hcpu2.
  assert (Hb : In (ArgCpu n b) (l2 ++ ArgCpu n b :: l3))
    by (apply in_or_app; right; left; reflexivity).
  destruct (Hcpu2 n b Hb) as [_ [_ [Hm _]]].
  rewrite store_nth_same in Hm by lia. lia.
Qed.

Lemma parse_args_second_duration g0 l1 l2 l3 d e :
  parse_args (l1 ++ ArgDuration d :: l2 ++ ArgDuration e :: l3) g0
  = inr EINVAL.
Proof.
  destruct (parse_args (l1 ++ ArgDuration d :: l2 ++ ArgDuration e :: l3) g0)
    as [g|[]] eqn:E; [|reflexivity].
  exfalso.
  rewrite parse_args_app in E.
  destruct (parse_args l1 g0) as [g1|] eqn:E1; [|discriminate].
  cbn [parse_args] in E.
  destruct (d <? 1) eqn:D; [discriminate|].
  destruct (negb (duration g1 =? -1)); [discriminate|].
  destruct (parse_args_result _ _ _ E) as [_ [_ [_ [_ [Hdur _]]]]].
  cbn [duration] in Hdur.
  assert (Hb : In (ArgDuration e) (l2 ++ ArgDuration e :: l3))
    by (apply in_or_app; right; left; reflexivity).
  destruct (Hdur e Hb) as [_ [Hm _]]. lia.
Qed.

(** X2: a core is given a load at most once and the duration is given at
    most once: a command line with two words for the same core, or with
    two durations, is refused, wherever the two words stand and whatever
    else it holds. *)
Theorem second_assignment_is_refused :
  forall ncpu l1 l2 l3,
    (forall n a b,
        main_init ncpu (l1 ++ ArgCpu n a :: l2 ++ ArgCpu n b :: l3)
        = inr EINVAL)
    /\ (forall d e,
           main_init ncpu (l1 ++ ArgDuration d :: l2 ++ ArgDuration e :: l3)
           = inr EINVAL).
Proof.
  intros ncpu l1 l2 l3. split.
  - intros n a b. unfold main_init.
    destruct (l1 ++ ArgCpu n a :: l2 ++ ArgCpu n b :: l3) as [|x rest] eqn:E.
    + destruct l1; discriminate.
    + rewrite <- E. apply parse_args_second_load. cbn. apply repeat_length.
  - intros d e. unfold main_init.
    destruct (l1 ++ ArgDuration d :: l2 ++ ArgDuration e :: l3)
      as [|x rest] eqn:E.
    + destruct l1; discriminate.
    + rewrite <- E. apply parse_args_second_duration.
Qed.

(** X3: what an accepted command line leaves in the globals.  When
    [main] gets past its argument loop, every word was a well-formed
    load for an existing core or a well-formed duration; [cpuloads] has
    one entry per core, holding the load of each word at its core and -1
    at every core that no word names; [duration] is the duration given,
    or -1 when none was. *)
Theorem accepted_command_line :
  forall ncpu args g,
    args <> [] ->
    main_init ncpu args = inl g ->
    cpu_count g = ncpu
    /\ length (cpuloads g) = Z.to_nat ncpu
    /\ (forall n l, In (ArgCpu n l) args ->
          0 <= n < ncpu /\ 1 <= l <= 100
          /\ nth (Z.to_nat n) (cpuloads g) (-1) = l)
    /\ (forall i, (forall l, ~ In (ArgCpu (Z.of_nat i) l) args) ->
                  nth i (cpuloads g) (-1) = -1)
    /\ (forall d, In (ArgDuration d) args -> 1 <= d /\ duration g = d)
    /\ ((forall d, ~ In (ArgDuration d) args) -> duration g = -1)
    /\ ~ In ArgOther args.
Proof.
  intros ncpu args g Hne Hp.
  assert (E : parse_args args
                (mk_globals ncpu (repeat (-1) (Z.to_nat ncpu)) (-1)) = inl g).
  { destruct args; [contradiction | exact Hp]. }
  destruct (parse_args_result _ _ _ E)
    as [Hc [Hl [Hcpu [Hkeep [Hdur [Hnodur Hoth]]]]]].
  cbn [cpu_count cpuloads duration] in *. rewrite repeat_length in *.
  split; [exact Hc|]. split; [exact Hl|].
  split; [|split; [|split; [|split]]].
  - intros n l Hin. destruct (Hcpu n l Hin) as [Hn [Hload [_ Hset]]].
    split; [exact Hn|]. split; [exact Hload|]. apply Hset. lia.
  - intros i Hno. rewrite (Hkeep i Hno). apply nth_repeat.
  - intros d Hin. destruct (Hdur d Hin) as [Hd [_ Hset]]. split; assumption.
  - exact Hnodur.
  - exact Hoth.
Qed.

Lemma accepted_command_line_witness :
  exists g,
    main_init 4 [ArgCpu 3 100; ArgCpu 1 50; ArgDuration 5] = inl g
    /\ nth 3 (cpuloads g) (-1) = 100
    /\ nth 0 (cpuloads g) (-1) = -1
    /\ duration g = 5.
Proof.
  exists (mk_globals 4 [-1; 50; -1; 100] 5).
  assert (E : main_init 4 [ArgCpu 3 100; ArgCpu 1 50; ArgDuration 5]
              = inl (mk_globals 4 [-1; 50; -1; 100] 5)) by reflexivity.
  destruct (accepted_command_line 4
              [ArgCpu 3 100; ArgCpu 1 50; ArgDuration 5] _
              ltac:(discriminate) E)
    as [_ [_ [Hcpu [Hkeep [Hdur _]]]]].
  split; [exact E|]. split; [|split].
  - destruct (Hcpu 3 100) as [_ [_ H]]; [left; reflexivity | exact H].
  - apply (Hkeep O). intros l [H|[H|[H|[]]]]; cbn in H; congruence.
  - destruct (Hdur 5) as [_ H]; [right; right; left; reflexivity | exact H].
Defined.

(** A well-formed argument list is accepted from any globals in which
    the cores it names are free and, if it gives a duration, none is
    set. *)
Lemma parse_args_accepts args :
  forall g0,
    length (cpuloads g0) = Z.to_nat (cpu_count g0) ->
    (forall n l, In (ArgCpu n l) args ->
                 0 <= n < cpu_count g0 /\ 1 <= l <= 100
                 /\ nth (Z.to_nat n) (cpuloads g0) (-1) = -1) ->
    NoDup (flat_map (fun a => match a with
                              | ArgCpu n _ => [n]
                              | _ => []
                              end) args) ->
    (forall d, In (ArgDuration d) args -> 1 <= d /\ duration g0 = -1) ->
    (length (filter (fun a => match a with
                              | ArgDuration _ => true
                              | _ => false
                              end) args) <= 1)%nat ->
    ~ In ArgOther args ->
    exists g, parse_args args g0 = inl g.
Proof.
  induction args as [|a args IH]; intros g0 Hlen Hcpu Hnd Hdur Hone Hoth.
  - exists g0. reflexivity.
  - destruct a as [n load|d|].
    + destruct (Hcpu n load (or_introl eq_refl)) as [Hn [Hl Hm]].
      cbn [parse_args].
      replace ((n <? 0) || (cpu_count g0 <=? n) || (load <? 1) || (100 <? load))
        with false by (symmetry; lia).
      rewrite Hm. cbn [Z.eqb negb]. change (-1 =? -1) with true. cbn [negb].
      cbn [flat_map app] in Hnd. inversion Hnd as [|? ? Hnotin Hnd']; subst.
      apply IH.
      * cbn. rewrite store_length. exact Hlen.
      * intros n' l' Hin. cbn [cpu_count cpuloads].
        destruct (Hcpu n' l' (or_intror Hin)) as [Hn' [Hl' Hm']].
        split; [exact Hn'|]. split; [exact Hl'|].
        rewrite store_nth_other; [exact Hm'|].
        intros E. assert (n' = n) by lia. subst n'.
        apply Hnotin. apply in_flat_map. exists (ArgCpu n l').
        split; [exact Hin | left; reflexivity].
      * exact Hnd'.
      * intros d Hin. exact (Hdur d (or_intror Hin)).
      * exact Hone.
      * intros Hin. apply Hoth. right. exact Hin.
    + destruct (Hdur d (or_introl eq_refl)) as [Hd Hm].
      cbn [parse_args].
      replace (d <? 1) with false by (symmetry; lia).
      rewrite Hm. change (-1 =? -1) with true. cbn [negb].
      cbn [filter length] in Hone.
      assert (Hnone : forall d', ~ In (ArgDuration d') args).
      { intros d' Hin.
        assert (Hf : In (ArgDuration d')
                        (filter (fun a => match a with
                                          | ArgDuration _ => true
                                          | _ => false
                                          end) args))
          by (apply filter_In; split; [exact Hin | reflexivity]).
        destruct (filter _ args); [destruct Hf | cbn in Hone; lia]. }
      apply IH.
      * exact Hlen.
      * intros n' l' Hin. exact (Hcpu n' l' (or_intror Hin)).
      * exact Hnd.
      * intros d' Hin. exfalso. exact (Hnone d' Hin).
      * lia.
      * intros Hin. apply Hoth. right. exact Hin.
    + exfalso. apply Hoth. left. reflexivity.
Qed.

(** X4: a well-formed command line is accepted: when every word is a
    load of 1..100 for a core below the count or a duration of at least
    1, no core is named twice and at most one duration is given, [main]
    gets past its argument loop. *)
Theorem well_formed_command_line_is_accepted :
  forall ncpu args,
    (forall n l, In (ArgCpu n l) args -> 0 <= n < ncpu /\ 1 <= l <= 100) ->
    NoDup (flat_map (fun a => match a with
                              | ArgCpu n _ => [n]
                              | _ => []
                              end) args) ->
    (forall d, In (ArgDuration d) args -> 1 <= d) ->
    (length (filter (fun a => match a with
                              | ArgDuration _ => true
                              | _ => false
                              end) args) <= 1)%nat ->
    ~ In ArgOther args ->
    exists g, main_init ncpu args = inl g.
Proof.
  intros ncpu args Hcpu Hnd Hdur Hone Hoth. unfold main_init.
  destruct args as [|a rest]; [eexists; reflexivity|].
  apply parse_args_accepts; cbn [cpu_count cpuloads duration].
  - apply repeat_length.
  - intros n l Hin. destruct (Hcpu n l Hin) as [Hn Hl].
    split; [exact Hn|]. split; [exact Hl|]. apply nth_repeat.
  - exact Hnd.
  - intros d Hin. split; [exact (Hdur d Hin) | reflexivity].
  - exact Hone.
  - exact Hoth.
Qed.

Lemma well_formed_command_line_is_accepted_witness :
  exists g, main_init 4 [ArgCpu 3 100; ArgCpu 1 50; ArgDuration 5] = inl g.
Proof.
  apply well_formed_command_line_is_accepted.
  - intros n l [H|[H|[H|[]]]]; try discriminate; injection H as <- <-; lia.
  - cbn. repeat constructor; cbn; intuition discriminate.
  - intros d [H|[H|[H|[]]]]; try discriminate. injection H as <-. lia.
  - cbn. lia.
  - intros [H|[H|[H|[]]]]; discriminate.
Defined.

(** ** From the command line to the threads *)

Lemma word_for_core args i :
  (exists l, In (ArgCpu i l) args) \/ (forall l, ~ In (ArgCpu i l) args).
Proof.
  induction args as [|a args [[l Hl]|Hno]].
  - right. intros l [].
  - left. exists l. right. exact Hl.
  - destruct a as [n load|d|].
    + destruct (Z.eq_dec n i) as [->|Hne].
      * left. exists load. left. reflexivity.
      * right. intros l [E|Hin]; [congruence | exact (Hno l Hin)].
    + right. intros l [E|Hin]; [discriminate | exact (Hno l Hin)].
    + right. intros l [E|Hin]; [discriminate | exact (Hno l Hin)].
Qed.

(** X5: from the command line to [loadgen].  For an accepted command
    line, whatever the schedule and the outcome of the [pthread_create]
    calls, a thread that has copied its index calls [loadgen] for the
    core it was created for, with the load that the command line gives
    that core (1..100, unchanged by the conversion), and with the
    [duration] global reduced to an [unsigned int]. *)
Theorem loadgen_gets_the_command_line :
  forall ncpu args g create cpu0 sched,
    args <> [] ->
    0 <= ncpu <= INT_MAX ->
    main_init ncpu args = inl g ->
    let c := mk_config g create in
    let s := exec c sched (init c cpu0) in
    forall th v,
      In th (pool s) -> observed th = Some v ->
      exists l,
        In (ArgCpu (Z.of_nat (slot th)) l) args
        /\ 1 <= l <= 100
        /\ thread_loadgen g v
           = RunLoadgen (Z.of_nat (slot th)) l (to_uint (duration g)).
Proof.
  intros ncpu args g create cpu0 sched Hne Hn Hp c s th v Hin Hv.
  assert (E : parse_args args
                (mk_globals ncpu (repeat (-1) (Z.to_nat ncpu)) (-1)) = inl g).
  { destruct args; [contradiction | exact Hp]. }
  destruct (parse_args_result _ _ _ E) as [Hc [Hl [Hcpu [Hkeep _]]]].
  cbn [cpu_count cpuloads duration] in Hc, Hl, Hcpu, Hkeep.
  rewrite repeat_length in *.
  assert (Hinv : invariant c s).
  { apply exec_invariant; [cbn; lia | apply invariant_init]. }
  apply In_nth_error in Hin. destruct Hin as [t Ht].
  destruct (inv_slot_loaded c s Hinv t th Ht) as [Hlt Hld].
  cbn [glob c] in Hlt. unfold load_of in Hld. cbn [glob c] in Hld.
  rewrite (inv_observed c s Hinv t th v Ht Hv).
  destruct (word_for_core args (Z.of_nat (slot th))) as [[l Hw]|Hno].
  - exists l. destruct (Hcpu _ l Hw) as [_ [Hload [_ Hset]]].
    rewrite Nat2Z.id in Hset. specialize (Hset ltac:(lia)).
    split; [exact Hw|]. split; [exact Hload|].
    unfold thread_loadgen. rewrite Hc.
    rewrite to_uint_small by (unfold INT_MAX, UINT_MAX in *; lia).
    replace (Z.of_nat (slot th) <? ncpu) with true by (symmetry; lia).
    rewrite Nat2Z.id.
    rewrite (nth_error_nth' (cpuloads g) (-1)) by lia.
    rewrite Hset. rewrite to_uint_small by (unfold UINT_MAX; lia).
    reflexivity.
  - exfalso. apply Hld. rewrite (Hkeep _ Hno). apply nth_repeat.
Qed.

Lemma loadgen_gets_the_command_line_witness :
  exists l,
    In (ArgCpu 1 l) [ArgDuration 5; ArgCpu 1 50]
    /\ 1 <= l <= 100
    /\ thread_loadgen (mk_globals 2 [-1; 50] 5) 1 = RunLoadgen 1 l 5.
Proof.
  apply (loadgen_gets_the_command_line 2 [ArgDuration 5; ArgCpu 1 50]
           (mk_globals 2 [-1; 50] 5) (fun _ => true) 0
           [AMain; AMain; AMain; AMain; AMain; AThread 0]
           ltac:(discriminate) ltac:(unfold INT_MAX; lia) eq_refl
           (mk_thread 1 (TCopied 1)) 1).
  - left. reflexivity.
  - reflexivity.
Defined.

(** X6: the run without arguments.  Every core has a load of 100 and no
    duration is set: a thread that has copied its index calls [loadgen]
    for its core with a load of 100 and the duration 4294967295, and,
    when every [pthread_create] succeeds, the threads that exist once
    [main] is past its join loop are those of the cores 0, 1, ... up to
    the count, one each. *)
Theorem run_without_arguments :
  forall ncpu create cpu0 sched,
    0 <= ncpu <= INT_MAX ->
    exists g,
      main_init ncpu [] = inl g
      /\ let c := mk_config g create in
         let s := exec c sched (init c cpu0) in
         (forall th v,
             In th (pool s) -> observed th = Some v ->
             thread_loadgen g v
             = RunLoadgen (Z.of_nat (slot th)) 100 4294967295)
         /\ ((forall i, create i = true) -> pc s = MDone ->
             started s = seq 0 (Z.to_nat ncpu)).
Proof.
  intros ncpu create cpu0 sched Hn.
  exists (mk_globals ncpu (repeat 100 (Z.to_nat ncpu)) (-1)).
  split; [reflexivity|]. intros c s.
  assert (Hinv : invariant c s).
  { apply exec_invariant; [cbn; lia | apply invariant_init]. }
  assert (Hload : forall i, (i < Z.to_nat ncpu)%nat -> load_of c i = 100).
  { intros i Hi. unfold load_of. cbn.
    rewrite (nth_indep _ (-1) 100) by (rewrite repeat_length; exact Hi).
    apply nth_repeat. }
  split.
  - intros th v Hin Hv.
    apply In_nth_error in Hin. destruct Hin as [t Ht].
    destruct (inv_slot_loaded c s Hinv t th Ht) as [Hlt _].
    cbn [glob c cpu_count] in Hlt.
    rewrite (inv_observed c s Hinv t th v Ht Hv).
    unfold thread_loadgen. cbn [cpu_count cpuloads duration].
    rewrite to_uint_small by (unfold INT_MAX, UINT_MAX in *; lia).
    replace (Z.of_nat (slot th) <? ncpu) with true by (symmetry; lia).
    rewrite Nat2Z.id.
    rewrite (nth_error_nth' _ (-1)) by (rewrite repeat_length; lia).
    specialize (Hload (slot th) ltac:(lia)).
    unfold load_of in Hload. cbn [glob c cpuloads] in Hload.
    rewrite Hload. reflexivity.
  - intros Hok Hpc.
    assert (Hf : fanout c s).
    { apply exec_fanout;
        [cbn; lia | apply invariant_init | apply fanout_init]. }
    rewrite (fo_started c s Hf), Hpc. cbn [spawn_done frontier].
    unfold created, Orchestrator.ncpu. cbn [glob c cpu_count].
    rewrite forallb_filter_id
      by (apply forallb_forall; intros x _; apply Hok).
    unfold loaded. apply forallb_filter_id. apply forallb_forall.
    intros i Hi. apply in_seq in Hi. rewrite Hload by lia. reflexivity.
Qed.

Lemma run_without_arguments_witness :
  exists g,
    main_init 2 [] = inl g
    /\ started (exec (mk_config g (fun _ => true))
                  (repeat AMain 9 ++ [AThread 0; AThread 0]
                   ++ repeat AMain 6)
                  (init (mk_config g (fun _ => true)) 0))
       = [0%nat; 1%nat].
Proof.
  destruct (run_without_arguments 2 (fun _ => true) 0
              (repeat AMain 9 ++ [AThread 0; AThread 0] ++ repeat AMain 6))
    as [g [Hg _]].
  - unfold INT_MAX. lia.
  - exists g. split; [exact Hg|].
    cbn in Hg. injection Hg as <-. vm_compute. reflexivity.
Defined.

Lemma spawn_loop_skips_all c :
  (forall i, load_of c i = -1) ->
  forall d i s,
    pc s = MFor i ->
    (i + d = ncpu c)%nat ->
    exec c (repeat AMain (S d)) s = set_pc s (MJoinFor 0).
Proof.
  intros Hload. induction d as [|d IH]; intros i s Hpc Hd.
  - cbn [repeat exec step]. unfold step_main. rewrite Hpc.
    replace (Z.of_nat i <? cpu_count (glob c)) with false
      by (symmetry; apply Z.ltb_ge; unfold ncpu in Hd; lia).
    reflexivity.
  - change (repeat AMain (S (S d))) with (AMain :: repeat AMain (S d)).
    cbn [exec step]. unfold step_main at 1. rewrite Hpc.
    replace (Z.of_nat i <? cpu_count (glob c)) with true
      by (symmetry; apply Z.ltb_lt; unfold ncpu in Hd; lia).
    rewrite Hload. change (-1 =? -1) with true. cbv iota.
    rewrite (IH (S i)); [reflexivity | reflexivity | lia].
Qed.

Lemma join_loop_skips_all c :
  (forall i, load_of c i = -1) ->
  forall d i s,
    pc s = MJoinFor i ->
    (i + d = ncpu c)%nat ->
    exec c (repeat AMain (S d)) s = set_pc s MDone.
Proof.
  intros Hload. induction d as [|d IH]; intros i s Hpc Hd.
  - cbn [repeat exec step]. unfold step_main. rewrite Hpc.
    replace (Z.of_nat i <? cpu_count (glob c)) with false
      by (symmetry; apply Z.ltb_ge; unfold ncpu in Hd; lia).
    reflexivity.
  - change (repeat AMain (S (S d))) with (AMain :: repeat AMain (S d)).
    cbn [exec step]. unfold step_main at 1. rewrite Hpc.
    replace (Z.of_nat i <? cpu_count (glob c)) with true
      by (symmetry; apply Z.ltb_lt; unfold ncpu in Hd; lia).
    rewrite Hload. change (-1 =? -1) with true. cbv iota.
    rewrite (IH (S i)); [reflexivity | reflexivity | lia].
Qed.

Lemma exec_app c l1 :
  forall l2 s, exec c (l1 ++ l2) s = exec c l2 (exec c l1 s).
Proof.
  induction l1 as [|a l1 IH]; intros l2 s; [reflexivity|].
  cbn [app exec]. destruct (step c a s); apply IH.
Qed.

(** X7: arguments without a load.  When a command line is accepted and
    none of its words gives a core a load (a duration alone, say), no
    core has a load: no thread is created under any schedule, and [main]
    left alone walks through both of its loops to the end without a
    single [pthread_join]. *)
Theorem no_load_word_no_thread :
  forall ncpu args g create cpu0,
    args <> [] ->
    main_init ncpu args = inl g ->
    (forall n l, ~ In (ArgCpu n l) args) ->
    let c := mk_config g create in
    (forall sched, pool (exec c sched (init c cpu0)) = [])
    /\ (let s := exec c (repeat AMain (2 * Z.to_nat ncpu + 2)) (init c cpu0) in
        pc s = MDone /\ pool s = [] /\ joins s = []).
Proof.
  intros ncpu args g create cpu0 Hne Hp Hno c.
  assert (E : parse_args args
                (mk_globals ncpu (repeat (-1) (Z.to_nat ncpu)) (-1)) = inl g).
  { destruct args; [contradiction | exact Hp]. }
  destruct (parse_args_result _ _ _ E) as [Hc [Hl [_ [Hkeep _]]]].
  cbn [cpu_count cpuloads] in Hc, Hl, Hkeep.
  assert (Hload : forall i, load_of c i = -1).
  { intros i. unfold load_of. cbn [glob c]. rewrite Hkeep.
    - destruct (Nat.lt_ge_cases i (Z.to_nat ncpu)) as [Hi|Hi].
      + apply nth_repeat.
      + apply nth_overflow. rewrite repeat_length. exact Hi.
    - intros l. apply Hno. }
  split.
  - intros sched.
    assert (Hstay : forall l s,
               pool s = [] -> spawning (pc s) = None ->
               pool (exec c l s) = []).
    { induction l as [|a l IH]; intros s Hs Hsp; [exact Hs|].
      cbn [exec]. destruct (step c a s) as [s'|] eqn:Hstep;
        [|exact (IH s Hs Hsp)].
      destruct a as [|tid]; cbn [step] in Hstep.
      - unfold step_main in Hstep.
        destruct (pc s) as [i|i|i|i|i|i|]; try discriminate.
        + rewrite Hload in Hstep. change (-1 =? -1) with true in Hstep.
          destruct (Z.of_nat i <? cpu_count (glob c));
            injection Hstep as <-; apply IH; assumption || reflexivity.
        + rewrite Hload in Hstep. change (-1 =? -1) with true in Hstep.
          destruct (Z.of_nat i <? cpu_count (glob c));
            injection Hstep as <-; apply IH; assumption || reflexivity.
        + rewrite Hs in Hstep.
          destruct (nth i (threads s) (-1) <? 0); [discriminate|].
          destruct (Z.to_nat (nth i (threads s) (-1))); discriminate.
      - unfold step_thread in Hstep. rewrite Hs in Hstep.
        destruct tid; discriminate. }
    apply Hstay; reflexivity.
  - cbv zeta.
    replace (2 * Z.to_nat ncpu + 2)%nat
      with (S (Z.to_nat ncpu) + S (Z.to_nat ncpu))%nat by lia.
    rewrite repeat_app, exec_app.
    rewrite (spawn_loop_skips_all c Hload (Z.to_nat ncpu) O (init c cpu0));
      [|reflexivity | unfold Orchestrator.ncpu; cbn [glob c]; rewrite Hc; lia].
    rewrite (join_loop_skips_all c Hload (Z.to_nat ncpu) O
               (set_pc (init c cpu0) (MJoinFor 0)));
      [|reflexivity | unfold Orchestrator.ncpu; cbn [glob c]; rewrite Hc; lia].
    repeat split; reflexivity.
Qed.

Lemma no_load_word_no_thread_witness :
  let c := mk_config (mk_globals 2 [-1; -1] 10) (fun _ => true) in
  pc (exec c (repeat AMain 6) (init c 0)) = MDone
  /\ main_init 2 [ArgDuration 10] = inl (mk_globals 2 [-1; -1] 10).
Proof.
  intros c.
  destruct (no_load_word_no_thread 2 [ArgDuration 10]
              (mk_globals 2 [-1; -1] 10) (fun _ => true) 0) as [_ [H _]].
  - discriminate.
  - reflexivity.
  - intros n l [E|[]]. discriminate.
  - split; [exact H | reflexivity].
Defined.

(** ** More on the duty-cycle loop *)


(** X9: a duration that is a multiple of 2^32.  [main] accepts any
    duration from 1 up, but [loadgen] takes it as an [unsigned int]: when
    the duration given is a multiple of 4294967296 (within a 64-bit
    [long]), every thread that runs [loadgen] runs it with a duration of
    0, and so without a deadline. *)
Theorem duration_multiple_of_2_32_never_ends :
  forall ncpu args g k,
    main_init ncpu args = inl g ->
    In (ArgDuration (k * 4294967296)) args ->
    k * 4294967296 <= 9223372036854775807 ->
    forall cpu c l d tv_start env,
      thread_loadgen g cpu = RunLoadgen c l d ->
      d = 0
      /\ exited (loadgen c l d tv_start env) = false
      /\ iterations (loadgen c l d tv_start env) = length env.
Proof.
  intros ncpu args g k Hp Hin Hmax cpu c l d tv_start env Ht.
  assert (E : parse_args args
                (mk_globals ncpu (repeat (-1) (Z.to_nat ncpu)) (-1)) = inl g).
  { destruct args; [destruct Hin | exact Hp]. }
  destruct (parse_args_result _ _ _ E) as [_ [_ [_ [_ [Hdur _]]]]].
  destruct (Hdur _ Hin) as [_ [_ Hd]].
  unfold thread_loadgen in Ht.
  destruct (cpu <? to_uint (cpu_count g)); [|discriminate].
  destruct (nth_error (cpuloads g) (Z.to_nat cpu)); [|discriminate].
  injection Ht as <- <- <-.
  assert (H0 : to_uint (duration g) = 0).
  { rewrite Hd. unfold to_uint, UINT_MAX. apply Z_mod_mult. }
  rewrite H0. split; [reflexivity|].
  unfold loadgen. cbn [exited iterations].
  exact (zero_duration_never_exits _ _ env).
Qed.

Lemma duration_multiple_of_2_32_never_ends_witness :
  exited (loadgen 0 50 0 (mk_timeval 0 0)
            [mk_reading 0 (1 # 2) (mk_timeval 4294967296 0)]) = false.
Proof.
  destruct (duration_multiple_of_2_32_never_ends 1
              [ArgCpu 0 50; ArgDuration (1 * 4294967296)]
              (mk_globals 1 [50] 4294967296) 1
              eq_refl (or_intror (or_introl eq_refl)) ltac:(lia)
              0 0 50 0 (mk_timeval 0 0)
              [mk_reading 0 (1 # 2) (mk_timeval 4294967296 0)] eq_refl)
    as [_ [H _]].
  exact H.
Defined.

(** X10: no early exit.  When [loadgen] has left its loop, the duration
    is not 0, its last deadline check found the elapsed time, as the
    code computes it in binary64 from the reading of the check and the
    start reading, at least [duration], and no earlier check did. *)
Theorem loadgen_leaves_only_at_the_deadline :
  forall cpu load duration tv_start env,
    let r := Binary64.loadgen cpu load duration tv_start env in
    let seconds := fun tv : timeval =>
      (Binary64.double_of_Z (tv_sec tv)
       + Binary64.double_of_Z (tv_usec tv) * 0x1.0c6f7a0b5ed8dp-20)%float in
    let due := fun rd : Binary64.reading =>
      (Binary64.double_of_Z duration
       <=? seconds (Binary64.tv_cpuloadgen rd) - seconds tv_start)%float in
    exited r = true ->
    duration <> 0
    /\ (exists rd,
           nth_error env (pred (iterations r)) = Some rd /\ due rd = true)
    /\ (forall k rk, (S k < iterations r)%nat -> nth_error env k = Some rk ->
                     due rk = false).
Proof.
  intros cpu load duration tv_start env r seconds due. subst r.
  unfold Binary64.loadgen. cbn [exited iterations].
  set (start := Binary64.timeval_seconds tv_start).
  destruct (binary64_duty_loop_control load duration start env) as [-> ->].
  intros He.
  destruct (binary64_exit_is_deadline duration start env He)
    as [n [rd [Hi [Hn [Hdue Hbefore]]]]].
  rewrite Hi. cbn [pred].
  unfold Binary64.deadline_reached in Hdue.
  apply andb_true_iff in Hdue. destruct Hdue as [Hnz Hle].
  apply negb_true_iff in Hnz.
  split; [apply Z.eqb_neq; exact Hnz|]. split.
  - exists rd. split; [exact Hn | exact Hle].
  - intros k rk Hk Hrk.
    assert (E := Hbefore k rk ltac:(lia) Hrk).
    unfold Binary64.deadline_reached in E. rewrite Hnz in E. exact E.
Qed.

Lemma loadgen_leaves_only_at_the_deadline_witness :
  let env := [ Binary64.mk_reading 0 0.5 (mk_timeval 2147483648 3);
               Binary64.mk_reading 0 0.5 (mk_timeval 2147483649 3) ] in
  iterations (Binary64.loadgen 0 50 1 (mk_timeval 2147483647 3) env) = 2%nat
  /\ (Binary64.double_of_Z 1
      <=? Binary64.timeval_seconds (mk_timeval 2147483648 3)
          - Binary64.timeval_seconds (mk_timeval 2147483647 3))%float = false.
Proof.
  intros env.
  destruct (loadgen_leaves_only_at_the_deadline 0 50 1
              (mk_timeval 2147483647 3) env) as [_ [_ H]].
  - vm_compute. reflexivity.
  - split; [vm_compute; reflexivity|].
    apply (H O (Binary64.mk_reading 0 0.5 (mk_timeval 2147483648 3))).
    + vm_compute. lia.
    + reflexivity.
Defined.



(** X13: the number of passes does not depend on the load.  Two runs of
    [loadgen] with the same duration, the same start reading and the same
    [gettimeofday] readings make the same number of passes and leave, or
    do not leave, alike, whatever their loads and whatever [dtime]
    measured. *)
Theorem passes_depend_on_the_clock_only :
  forall cpu cpu' load load' duration tv_start env env',
    map tv_cpuloadgen env = map tv_cpuloadgen env' ->
    iterations (loadgen cpu load duration tv_start env)
    = iterations (loadgen cpu' load' duration tv_start env')
    /\ exited (loadgen cpu load duration tv_start env)
       = exited (loadgen cpu' load' duration tv_start env').
Proof.
  intros cpu cpu' load load' duration tv_start env env' Hmap.
  unfold loadgen. cbn [iterations exited].
  set (start := timeval_seconds tv_start).
  assert (Hfull : forall l e,
             iterations (duty_loop l duration start e)
             = iterations (full_loop duration start e)
             /\ exited (duty_loop l duration start e)
                = exited (full_loop duration start e)).
  { intros l e. unfold duty_loop. destruct (negb (l =? 100)).
    - apply loops_same_control.
    - split; reflexivity. }
  destruct (Hfull load env) as [-> ->].
  destruct (Hfull load' env') as [-> ->].
  clear Hfull. revert env' Hmap.
  induction env as [|r env IH]; intros [|r' env'] Hmap;
    try discriminate; [split; reflexivity|].
  cbn [map] in Hmap. injection Hmap as Hr Hrest.
  cbn [full_loop]. rewrite Hr.
  destruct (deadline_reached duration start (timeval_seconds (tv_cpuloadgen r'))).
  - split; reflexivity.
  - cbn [iterations exited]. destruct (IH env' Hrest) as [-> ->].
    split; reflexivity.
Qed.

Lemma passes_depend_on_the_clock_only_witness :
  iterations (loadgen 0 10 2 (mk_timeval 100 0)
                [mk_reading 0 (1 # 2) (mk_timeval 101 0);
                 mk_reading 5 6 (mk_timeval 103 0)])
  = iterations (loadgen 1 100 2 (mk_timeval 100 0)
                  [mk_reading 0 0 (mk_timeval 101 0);
                   mk_reading 0 0 (mk_timeval 103 0)]).
Proof.
  apply passes_depend_on_the_clock_only. reflexivity.
Defined.


(** ** More on the burst *)

Lemma draws_app (seed : Type) (rand : seed -> Z * seed) n m :
  forall st,
    draws seed rand (n + m) st
    = (fst (draws seed rand n st)
         ++ fst (draws seed rand m (snd (draws seed rand n st))),
       snd (draws seed rand m (snd (draws seed rand n st)))).
Proof.
  induction n as [|n IH]; intros st.
  - cbn. destruct (draws seed rand m st). reflexivity.
  - cbn [Nat.add draws]. destruct (rand st) as [v st'].
    rewrite IH. destruct (draws seed rand n st') as [vs st''].
    reflexivity.
Qed.

(** X16: bursts compose.  A [workload(N)] followed by a [workload(M)]
    hands [sqrt] the same values, in the same order, and leaves the
    generator of [rand] in the same state, as one [workload(N + M)], as
    long as the sum is an [unsigned int]. *)
Theorem bursts_compose :
  forall (seed : Type) (rand : seed -> Z * seed) N M st fuel,
    0 <= N -> 0 <= M -> N + M <= UINT_MAX ->
    (Z.to_nat (N + M) < fuel)%nat ->
    exists vs1 st1 vs2 st2,
      workload_loop seed rand fuel N st = Some (vs1, st1)
      /\ workload_loop seed rand fuel M st1 = Some (vs2, st2)
      /\ workload_loop seed rand fuel (N + M) st = Some (vs1 ++ vs2, st2).
Proof.
  intros seed rand N M st fuel HN HM Hsum Hfuel.
  exists (fst (draws seed rand (Z.to_nat N) st)),
         (snd (draws seed rand (Z.to_nat N) st)),
         (fst (draws seed rand (Z.to_nat M)
                 (snd (draws seed rand (Z.to_nat N) st)))),
         (snd (draws seed rand (Z.to_nat M)
                 (snd (draws seed rand (Z.to_nat N) st)))).
  split; [|split].
  - rewrite (workload_loop_draws seed rand (Z.to_nat N)) by lia.
    destruct (draws seed rand (Z.to_nat N) st). reflexivity.
  - rewrite (workload_loop_draws seed rand (Z.to_nat M)) by lia.
    destruct (draws seed rand (Z.to_nat M) _). reflexivity.
  - rewrite (workload_loop_draws seed rand (Z.to_nat (N + M))) by lia.
    rewrite Z2Nat.inj_add by lia. rewrite draws_app. reflexivity.
Qed.

Lemma bursts_compose_witness :
  exists vs1 st1 vs2 st2,
    workload_loop Z iso_rand 4 1 1 = Some (vs1, st1)
    /\ workload_loop Z iso_rand 4 2 st1 = Some (vs2, st2)
    /\ workload_loop Z iso_rand 4 (1 + 2) 1 = Some (vs1 ++ vs2, st2).
Proof.
  apply bursts_compose; unfold UINT_MAX; cbn; lia.
Defined.

(** ** More on the fan-out *)

Import Progress.

Lemma tasks_only_for_loaded_cores_witness :
  let c := mk_config (mk_globals 3 [50; -1; 100] (-1)) (fun _ => true) in
  let s := exec c (repeat AMain 4 ++ [AThread 0; AThread 0]
                   ++ repeat AMain 6) (init c 0) in
  started s = [0%nat; 2%nat] /\ NoDup (started s).
Proof.
  intros c s. split; [reflexivity|].
  apply (tasks_only_for_loaded_cores c 0). cbn. unfold INT_MAX. lia.
Defined.

Lemma fan_out_at_the_end_witness :
  let c := mk_config (mk_globals 2 [-1; 100] (-1)) (fun _ => true) in
  let s := exec c (repeat AMain 6 ++ repeat (AThread 0) 3 ++ repeat AMain 5)
             (init c 0) in
  pc s = MDone
  /\ started s = [1%nat]
  /\ map join_slot (joins s) = [1%nat].
Proof.
  intros c s.
  assert (Hpc : pc s = MDone) by reflexivity.
  destruct (fan_out_at_the_end c 0
              (repeat AMain 6 ++ repeat (AThread 0) 3 ++ repeat AMain 5))
    as [Hst [Hj _]].
  - cbn. unfold INT_MAX. lia.
  - exact Hpc.
  - split; [exact Hpc|]. split; [exact Hst | exact Hj].
Defined.

Lemma set_phase_exited l :
  forall tid ph t th,
    nth_error l t = Some th -> has_exited th = true ->
    (forall me, nth_error l tid = Some me -> has_exited me = false) ->
    nth_error (set_phase l tid ph) t = Some th.
Proof.
  intros tid ph t th Ht He Hme. rewrite set_phase_nth, Ht.
  destruct (Nat.eqb_spec t tid) as [->|_]; [|reflexivity].
  rewrite (Hme th Ht) in He. discriminate.
Qed.

Lemma step_joined_have_exited c a s s' :
  joined_have_exited s -> step c a s = Some s' -> joined_have_exited s'.
Proof.
  intros Hj. destruct a as [|tid]; cbn [step].
  - unfold step_main.
    destruct (pc s) as [i|i|i|i|i|i|]; try discriminate.
    + destruct (Z.of_nat i <? cpu_count (glob c));
        [destruct (load_of c i =? -1)|];
        intros E; injection E as <-; exact Hj.
    + destruct (mutex1 s); [discriminate|].
      intros E; injection E as <-; exact Hj.
    + intros E; injection E as <-; exact Hj.
    + destruct (create_ok c i); intros E; injection E as <-; [|exact Hj].
      intros jc t Hin Ht. cbn [joins pool] in *.
      destruct (Hj jc t Hin Ht) as [th [Hn He]].
      exists th. split; [|exact He].
      rewrite nth_error_app1; [exact Hn|].
      apply nth_error_Some. rewrite Hn. discriminate.
    + destruct (Z.of_nat i <? cpu_count (glob c));
        [destruct (load_of c i =? -1)|];
        intros E; injection E as <-; exact Hj.
    + destruct (nth i (threads s) (-1) <? 0); [discriminate|].
      destruct (nth_error (pool s) (Z.to_nat (nth i (threads s) (-1))))
        as [[sl ph]|] eqn:Hn; [|discriminate].
      destruct ph as [| | |v]; try discriminate.
      intros E; injection E as <-.
      intros jc t Hin Ht. cbn [joins pool] in *.
      apply in_app_or in Hin. destruct Hin as [Hin|[<-|[]]].
      * exact (Hj jc t Hin Ht).
      * cbn in Ht. injection Ht as <-. eexists. split; [exact Hn|].
        reflexivity.
  - unfold step_thread.
    destruct (nth_error (pool s) tid) as [me|] eqn:Hme; [|discriminate].
    assert (Hkeep : forall ph,
               has_exited me = false ->
               joined_have_exited
                 (mk_state (pc s) (cpu_var s) (mutex1 s)
                    (set_phase (pool s) tid ph) (threads s) (joins s)) /\
               joined_have_exited
                 (mk_state (pc s) (cpu_var s) false
                    (set_phase (pool s) tid ph) (threads s) (joins s))).
    { intros ph Hne.
      assert (H : forall jc t, In jc (joins s) -> joined jc = Some t ->
                  exists th, nth_error (set_phase (pool s) tid ph) t = Some th
                             /\ has_exited th = true).
      { intros jc t Hin Ht. destruct (Hj jc t Hin Ht) as [th [Hn He]].
        exists th. split; [|exact He].
        apply set_phase_exited; [exact Hn | exact He|].
        intros me' Hme'. congruence. }
      split; exact H. }
    unfold has_exited in Hkeep.
    destruct (phase me); try discriminate;
      intros E; injection E as <-; apply Hkeep; reflexivity.
Qed.

Lemma exec_joined_have_exited c sched :
  forall s, joined_have_exited s -> joined_have_exited (exec c sched s).
Proof.
  induction sched as [|a sched IH]; intros s Hj; [exact Hj|].
  cbn [exec]. destruct (step c a s) as [s'|] eqn:Hstep; [|exact (IH s Hj)].
  apply IH. exact (step_joined_have_exited c a s s' Hj Hstep).
Qed.

Lemma index_of_position l :
  forall t i,
    NoDup l -> nth_error l t = Some i -> index_of i l = Some t.
Proof.
  induction l as [|x l IH]; intros t i Hnd Ht; [destruct t; discriminate|].
  inversion Hnd as [|? ? Hnotin Hnd']; subst.
  destruct t as [|t]; cbn in Ht.
  - injection Ht as <-. cbn. rewrite Nat.eqb_refl. reflexivity.
  - cbn. destruct (Nat.eqb_spec x i) as [->|Hne].
    + exfalso. apply Hnotin. exact (nth_error_In _ _ Ht).
    + rewrite (IH t i Hnd' Ht). reflexivity.
Qed.

Lemma invariant_started_nodup c s : invariant c s -> NoDup (started s).
Proof.
  intros Hinv. unfold started. apply (NoDup_nth_error (map slot (pool s))).
  intros t1 t2 Hlt E. rewrite length_map in Hlt.
  destruct (nth_error (pool s) t1) as [th1|] eqn:H1;
    [|apply nth_error_None in H1; lia].
  rewrite !nth_error_map, H1 in E. cbn in E.
  destruct (nth_error (pool s) t2) as [th2|] eqn:H2; [|discriminate].
  cbn in E. injection E as E.
  destruct (Nat.lt_total t1 t2) as [Hl|[Heq|Hg]]; [|exact Heq|].
  - pose proof (inv_slot_order c s Hinv t1 t2 th1 th2 H1 H2 Hl). lia.
  - pose proof (inv_slot_order c s Hinv t2 t1 th2 th1 H2 H1 Hg). lia.
Qed.

(** X19: [main] outlives its threads.  Whatever the schedule and the
    outcome of the [pthread_create] calls, once [main] is past its join
    loop (where it releases the buffers and returns) every thread it has
    created is past its [pthread_exit]. *)
Theorem main_ends_after_its_threads :
  forall c cpu0 sched,
    cpu_count (glob c) <= INT_MAX ->
    let s := exec c sched (init c cpu0) in
    pc s = MDone ->
    forall th, In th (pool s) -> has_exited th = true.
Proof.
  intros c cpu0 sched Hmax s Hpc th Hin.
  assert (Hinv : invariant c s)
    by (apply exec_invariant; [exact Hmax | apply invariant_init]).
  assert (Hf : fanout c s).
  { apply exec_fanout; [exact Hmax | apply invariant_init | apply fanout_init]. }
  assert (Hj : joined_have_exited s).
  { apply exec_joined_have_exited. intros jc t []. }
  apply In_nth_error in Hin. destruct Hin as [t Ht].
  assert (Hst : nth_error (started s) t = Some (slot th)).
  { unfold started. rewrite nth_error_map, Ht. reflexivity. }
  assert (Hnd : NoDup (started s)) by exact (invariant_started_nodup c s Hinv).
  assert (Hidx : index_of (slot th) (started s) = Some t)
    by (apply index_of_position; assumption).
  assert (Hloaded : In (slot th) (loaded c (ncpu c))).
  { pose proof (fo_started c s Hf) as E. rewrite Hpc in E.
    cbn [spawn_done frontier] in E.
    assert (Hs : In (slot th) (started s)) by exact (nth_error_In _ _ Hst).
    rewrite E in Hs. unfold created in Hs. apply filter_In in Hs. tauto. }
  pose proof (fo_join_slots c s Hf) as Ejs. rewrite Hpc in Ejs.
  cbn [join_done] in Ejs. rewrite <- Ejs in Hloaded.
  apply in_map_iff in Hloaded. destruct Hloaded as [jc [Hslot Hjc]].
  pose proof (fo_joined c s Hf jc Hjc) as Ejoin.
  rewrite Hslot, Hidx in Ejoin.
  destruct (Hj jc t Hjc Ejoin) as [th' [Hn He]].
  assert (th' = th) by congruence. subst th'. exact He.
Qed.

Lemma main_ends_after_its_threads_witness :
  let c := mk_config (mk_globals 2 [-1; 100] (-1)) (fun _ => true) in
  let s := exec c (repeat AMain 6 ++ repeat (AThread 0) 3 ++ repeat AMain 5)
             (init c 0) in
  pc s = MDone /\ forall th, In th (pool s) -> has_exited th = true.
Proof.
  intros c s.
  assert (Hpc : pc s = MDone) by reflexivity.
  split; [exact Hpc|].
  apply (main_ends_after_its_threads c 0); [|exact Hpc].
  cbn. unfold INT_MAX. lia.
Defined.

Lemma step_lock_has_releaser c a s s' :
  (forall i, create_ok c i = true) ->
  lock_has_releaser s -> step c a s = Some s' -> lock_has_releaser s'.
Proof.
  intros Hok Hl. destruct a as [|tid]; cbn [step].
  - unfold step_main.
    destruct (pc s) as [i|i|i|i|i|i|] eqn:Hpc; try discriminate.
    + assert (Hkeep : forall p, lock_has_releaser (set_pc s p)).
      { intros p Hm. cbn in Hm. destruct (Hl Hm) as [Hh|Hp].
        - rewrite Hpc in Hh. discriminate.
        - right. exact Hp. }
      destruct (Z.of_nat i <? cpu_count (glob c));
        [destruct (load_of c i =? -1)|];
        intros E; injection E as <-; apply Hkeep.
    + destruct (mutex1 s); [discriminate|].
      intros E; injection E as <-. intros _. left. reflexivity.
    + intros E; injection E as <-. intros _. left. reflexivity.
    + rewrite Hok. intros E; injection E as <-. intros _. right.
      exists (length (pool s)), (mk_thread i TEntered). cbn [pool].
      split; [|reflexivity].
      rewrite nth_error_app2 by lia. rewrite Nat.sub_diag. reflexivity.
    + assert (Hkeep : forall p, lock_has_releaser (set_pc s p)).
      { intros p Hm. cbn in Hm. destruct (Hl Hm) as [Hh|Hp].
        - rewrite Hpc in Hh. discriminate.
        - right. exact Hp. }
      destruct (Z.of_nat i <? cpu_count (glob c));
        [destruct (load_of c i =? -1)|];
        intros E; injection E as <-; apply Hkeep.
    + assert (Hkeep : forall js,
                 lock_has_releaser
                   (mk_state (MJoinFor (S i)) (cpu_var s) (mutex1 s)
                      (pool s) (threads s) js)).
      { intros js Hm. cbn in Hm. destruct (Hl Hm) as [Hh|Hp].
        - rewrite Hpc in Hh. discriminate.
        - right. exact Hp. }
      destruct (nth i (threads s) (-1) <? 0); [discriminate|].
      destruct (nth_error (pool s) (Z.to_nat (nth i (threads s) (-1))))
        as [[sl [| | |v]]|]; try discriminate;
        intros E; injection E as <-; apply Hkeep.
  - unfold step_thread.
    destruct (nth_error (pool s) tid) as [me|] eqn:Hme; [|discriminate].
    destruct (phase me) as [|v|v|v] eqn:Hph; [| | |discriminate];
      intros E; injection E as <-.
    + intros Hm. cbn [mutex1 pc pool] in *.
      destruct (Hl Hm) as [Hh|[t [th [Ht Hp]]]]; [left; exact Hh|].
      right. exists t. rewrite set_phase_nth, Ht.
      destruct (Nat.eqb t tid); eexists; split; reflexivity || exact Hp.
    + intros Hm. discriminate.
    + intros Hm. cbn [mutex1 pc pool] in *.
      destruct (Hl Hm) as [Hh|[t [th [Ht Hp]]]]; [left; exact Hh|].
      right. exists t, th. split; [|exact Hp].
      rewrite set_phase_nth, Ht.
      destruct (Nat.eqb_spec t tid) as [->|_]; [|reflexivity].
      assert (th = me) by congruence. subst th.
      unfold pre_unlock in Hp. rewrite Hph in Hp. discriminate.
Qed.

Lemma exec_lock_has_releaser c sched :
  (forall i, create_ok c i = true) ->
  forall s, lock_has_releaser s -> lock_has_releaser (exec c sched s).
Proof.
  intros Hok. induction sched as [|a sched IH]; intros s Hl; [exact Hl|].
  cbn [exec]. destruct (step c a s) as [s'|] eqn:Hstep; [|exact (IH s Hl)].
  apply IH. exact (step_lock_has_releaser c a s s' Hok Hl Hstep).
Qed.

Lemma handles_named_init c cpu0 : handles_named c (init c cpu0).
Proof.
  constructor; cbn.
  - apply repeat_length.
  - discriminate.
  - discriminate.
  - intros k _ _ H. specialize (H O eq_refl). lia.
Qed.

Lemma step_handles_named c a s s' :
  (forall i, create_ok c i = true) ->
  handles_named c s -> step c a s = Some s' -> handles_named c s'.
Proof.
  intros Hok [Hlen Hsp Hjn Hnm]. destruct a as [|tid]; cbn [step].
  - unfold step_main.
    destruct (pc s) as [i|i|i|i|j|j|] eqn:Hpc; try discriminate.
    + destruct (Z.of_nat i <? cpu_count (glob c)) eqn:Hlt.
      * apply Z.ltb_lt, ncpu_lt in Hlt.
        destruct (load_of c i =? -1) eqn:Hld; intros E; injection E as <-;
          constructor; cbn; try assumption; try discriminate.
        -- intros k Hk Hl Hf. apply Hnm; [exact Hk | exact Hl|].
           intros i' E. injection E as <-.
           specialize (Hf (S i) eq_refl).
           destruct (Nat.eq_dec k i) as [->|Hne]; [|lia].
           apply Z.eqb_eq in Hld. contradiction.
        -- intros i' E. injection E as <-. exact Hlt.
      * apply Z.ltb_ge in Hlt.
        intros E; injection E as <-;
          constructor; cbn; try assumption; try discriminate.
        intros k Hk Hl _. apply Hnm; [exact Hk | exact Hl|].
        intros i' E. injection E as <-. unfold ncpu in Hk. lia.
    + destruct (mutex1 s); [discriminate|]. intros E; injection E as <-.
      constructor; cbn; try assumption; try discriminate;
        try (intros i' E; injection E as <-; apply Hsp; reflexivity).
    + intros E; injection E as <-.
      constructor; cbn; try assumption; try discriminate;
        try (intros i' E; injection E as <-; apply Hsp; reflexivity).
    + rewrite Hok. intros E; injection E as <-.
      assert (Hi : (i < ncpu c)%nat) by (apply Hsp; reflexivity).
      constructor; cbn; try discriminate.
      * rewrite store_length. exact Hlen.
      * intros k Hk Hl Hf. specialize (Hf (S i) eq_refl).
        rewrite length_app. cbn [length].
        destruct (Nat.eq_dec k i) as [->|Hne].
        -- rewrite store_nth_same by lia. rewrite Nat2Z.id. lia.
        -- rewrite store_nth_other by exact Hne.
           destruct (Hnm k Hk Hl) as [H0 H1].
           ++ intros i' E. injection E as <-. lia.
           ++ split; [exact H0 | lia].
    + destruct (Z.of_nat j <? cpu_count (glob c)) eqn:Hlt.
      * apply Z.ltb_lt, ncpu_lt in Hlt.
        destruct (load_of c j =? -1) eqn:Hld; intros E; injection E as <-;
          constructor; cbn; try assumption; try discriminate.
        intros j' E. injection E as <-. apply Z.eqb_neq in Hld. tauto.
      * intros E; injection E as <-;
          constructor; cbn; try assumption; try discriminate.
    + destruct (nth j (threads s) (-1) <? 0); [discriminate|].
      destruct (nth_error (pool s) (Z.to_nat (nth j (threads s) (-1))))
        as [[sl [| | |v]]|]; try discriminate.
      intros E; injection E as <-.
      constructor; cbn; try assumption; try discriminate.
  - unfold step_thread.
    destruct (nth_error (pool s) tid) as [me|]; [|discriminate].
    destruct (phase me); try discriminate; intros E; injection E as <-;
      constructor; cbn; rewrite ?set_phase_length; assumption.
Qed.

Lemma exec_handles_named c sched :
  (forall i, create_ok c i = true) ->
  forall s, handles_named c s -> handles_named c (exec c sched s).
Proof.
  intros Hok. induction sched as [|a sched IH]; intros s Hh; [exact Hh|].
  cbn [exec]. destruct (step c a s) as [s'|] eqn:Hstep; [|exact (IH s Hh)].
  apply IH. exact (step_handles_named c a s s' Hok Hh Hstep).
Qed.

Lemma some_thread_running l :
  forallb has_exited l = false ->
  exists t th, nth_error l t = Some th /\ has_exited th = false.
Proof.
  induction l as [|x l IH]; [discriminate|]. cbn [forallb].
  destruct (has_exited x) eqn:Hx.
  - cbn. intros H. destruct (IH H) as [t [th [Ht He]]].
    exists (S t), th. split; assumption.
  - intros _. exists O, x. split; [reflexivity | exact Hx].
Qed.

(** X20: no deadlock when the threads can be created.  If every
    [pthread_create] succeeds then, in every state the program can
    reach, either some actor ([main] or a thread) can take its next
    step, or [main] is past its join loop and every thread has exited:
    the hand-off through [mutex1] and the join loop never leave the
    program stuck. *)
Theorem no_deadlock_when_threads_are_created :
  forall c cpu0 sched,
    (forall i, create_ok c i = true) ->
    let s := exec c sched (init c cpu0) in
    (exists a, enabled c a s = true)
    \/ (pc s = MDone /\ forallb has_exited (pool s) = true).
Proof.
  intros c cpu0 sched Hok s.
  assert (Hl : lock_has_releaser s).
  { apply exec_lock_has_releaser; [exact Hok|]. intros Hm. discriminate. }
  assert (Hhn : handles_named c s).
  { apply exec_handles_named; [exact Hok | apply handles_named_init]. }
  destruct (forallb has_exited (pool s)) eqn:Hall.
  - assert (Hmain : pc s = MDone \/ step_main c s <> None).
    { unfold step_main. destruct (pc s) as [i|i|i|i|i|i|] eqn:Hpc.
      - right. destruct (Z.of_nat i <? cpu_count (glob c));
          [destruct (load_of c i =? -1)|]; discriminate.
      - right. destruct (mutex1 s) eqn:Hm; [|discriminate].
        exfalso. destruct (Hl Hm) as [Hh|[t [th [Ht Hp]]]].
        + rewrite Hpc in Hh. discriminate.
        + rewrite forallb_forall in Hall.
          specialize (Hall th (nth_error_In _ _ Ht)).
          unfold has_exited in Hall. unfold pre_unlock in Hp.
          destruct (phase th); discriminate.
      - right. discriminate.
      - right. destruct (create_ok c i); discriminate.
      - right. destruct (Z.of_nat i <? cpu_count (glob c));
          [destruct (load_of c i =? -1)|]; discriminate.
      - right.
        destruct (hn_joining c s Hhn i Hpc) as [Hi Hld].
        destruct (hn_named c s Hhn i Hi Hld) as [H0 H1];
          [rewrite Hpc; discriminate|].
        replace (nth i (threads s) (-1) <? 0) with false
          by (symmetry; apply Z.ltb_ge; exact H0).
        destruct (nth_error (pool s) (Z.to_nat (nth i (threads s) (-1))))
          as [[sl ph]|] eqn:Hn; [|apply nth_error_None in Hn; lia].
        rewrite forallb_forall in Hall.
        specialize (Hall _ (nth_error_In _ _ Hn)).
        unfold has_exited in Hall. cbn in Hall.
        destruct ph; discriminate.
      - left. reflexivity. }
    destruct Hmain as [Hd|Hs].
    + right. split; [exact Hd | reflexivity].
    + left. exists AMain. unfold enabled. cbn [step].
      destruct (step_main c s); [reflexivity | contradiction].
  - left. destruct (some_thread_running _ Hall) as [t [th [Ht He]]].
    exists (AThread t). unfold enabled. cbn [step]. unfold step_thread.
    rewrite Ht. unfold has_exited in He.
    destruct (phase th); try reflexivity. discriminate.
Qed.

Lemma no_deadlock_when_threads_are_created_witness :
  let c := mk_config (mk_globals 2 [100; 100] (-1)) (fun _ => true) in
  enabled c (AThread 0) (exec c (repeat AMain 6) (init c 0)) = true
  /\ enabled c AMain (exec c (repeat AMain 6) (init c 0)) = false.
Proof.
  intros c.
  destruct (no_deadlock_when_threads_are_created c 0 (repeat AMain 6))
    as [[a Ha]|[Hpc _]].
  - reflexivity.
  - split; reflexivity.
  - discriminate.
Defined.

(** ** The buffers *)

Lemma release_nth h :
  forall b c,
    nth c (Buffers.release h b) false
    = if Nat.eqb c b then false else nth c h false.
Proof.
  induction h as [|x h IH]; intros [|b] [|c]; cbn; try reflexivity.
  - destruct (Nat.eqb c b); reflexivity.
  - apply IH.
Qed.

Lemma release_length h : forall b, length (Buffers.release h b) = length h.
Proof.
  induction h as [|x h IH]; intros [|b]; cbn; try reflexivity.
  rewrite IH. reflexivity.
Qed.

Lemma free_block_released p h h' :
  Buffers.free p h = Some h' ->
  Buffers.allocated p h' = false
  /\ (forall q, Buffers.allocated q h = false ->
                Buffers.allocated q h' = false)
  /\ (p <> Buffers.NULL -> Buffers.allocated p h = true)
  /\ length h' = length h.
Proof.
  destruct p as [|b]; cbn.
  - intros E. injection E as <-. repeat split; tauto.
  - destruct (nth_error h b) as [[|]|] eqn:Hb; try discriminate.
    intros E. injection E as <-. split; [|split; [|split]].
    + rewrite release_nth, Nat.eqb_refl. reflexivity.
    + intros [|c]; cbn; [tauto|]. rewrite release_nth.
      destruct (Nat.eqb c b); tauto.
    + intros _. exact (nth_error_nth _ _ _ Hb).
    + apply release_length.
Qed.

(** X21: [free_buffers] is not repeatable.  It releases the blocks that
    [threads] and [cpuloads] point to and leaves both pointers as they
    were.  So after [sigterm_handler], which returns to the interrupted
    program, both buffers are released while the pointers still name
    them, and the [free_buffers] at the end of [main], or a second
    signal, frees a released block: an undefined call. *)
Theorem free_buffers_is_not_repeatable :
  forall m m',
    Buffers.sigterm_handler m = Some m' ->
    Buffers.threads_ptr m <> Buffers.NULL
    \/ Buffers.cpuloads_ptr m <> Buffers.NULL ->
    Buffers.threads_ptr m' = Buffers.threads_ptr m
    /\ Buffers.cpuloads_ptr m' = Buffers.cpuloads_ptr m
    /\ Buffers.allocated (Buffers.threads_ptr m') (Buffers.blocks m') = false
    /\ Buffers.allocated (Buffers.cpuloads_ptr m') (Buffers.blocks m') = false
    /\ Buffers.main_finish m' = None
    /\ Buffers.sigterm_handler m' = None.
Proof.
  intros [pt pl h] m'. unfold Buffers.sigterm_handler, Buffers.main_finish,
    Buffers.free_buffers. cbn [Buffers.threads_ptr Buffers.cpuloads_ptr
                               Buffers.blocks].
  assert (Hnull : forall p x,
             (if Buffers.is_null p then Some x else Buffers.free p x)
             = Buffers.free p x) by (intros [|b] x; reflexivity).
  rewrite !Hnull.
  destruct (Buffers.free pt h) as [h1|] eqn:E1; [|discriminate].
  rewrite !Hnull.
  destruct (Buffers.free pl h1) as [h2|] eqn:E2; [|discriminate].
  intros E Hptr. injection E as <-.
  cbn [Buffers.threads_ptr Buffers.cpuloads_ptr Buffers.blocks].
  destruct (free_block_released _ _ _ E1) as [Ht1 [_ _]].
  destruct (free_block_released _ _ _ E2) as [Hl2 [Hkeep _]].
  assert (Ht2 : Buffers.allocated pt h2 = false) by (apply Hkeep; exact Ht1).
  assert (Hagain : match Buffers.free pt h2 with
                   | Some h3 => Buffers.free pl h3
                   | None => None
                   end = None).
  { destruct (Buffers.free pt h2) as [h3|] eqn:E3; [|reflexivity].
    destruct (Buffers.free pl h3) as [h4|] eqn:E4; [|reflexivity].
    exfalso.
    destruct (free_block_released _ _ _ E3) as [_ [Hkeep3 [Hlive3 _]]].
    destruct (free_block_released _ _ _ E4) as [_ [_ [Hlive4 _]]].
    destruct Hptr as [Hp|Hp].
    - rewrite (Hlive3 Hp) in Ht2. discriminate.
    - rewrite (Hkeep3 _ Hl2) in Hlive4. specialize (Hlive4 Hp). discriminate. }
  repeat split; try reflexivity; try assumption;
    (rewrite ?Hnull; destruct (Buffers.free pt h2) as [h3|];
     [rewrite ?Hnull; cbn beta iota in Hagain; rewrite Hagain|];
     reflexivity).
Qed.

Lemma free_buffers_is_not_repeatable_witness :
  let m := Buffers.mk_memory (Buffers.Block 0) (Buffers.Block 1) [true; true] in
  Buffers.sigterm_handler m
  = Some (Buffers.mk_memory (Buffers.Block 0) (Buffers.Block 1) [false; false])
  /\ Buffers.main_finish
       (Buffers.mk_memory (Buffers.Block 0) (Buffers.Block 1) [false; false])
     = None.
Proof.
  intros m. split; [reflexivity|].
  destruct (free_buffers_is_not_repeatable m
              (Buffers.mk_memory (Buffers.Block 0) (Buffers.Block 1)
                 [false; false]) eq_refl) as [_ [_ [_ [_ [H _]]]]].
  - left. discriminate.
  - exact H.
Defined.

Lemma release_app h :
  forall l k,
    Buffers.release (h ++ l) (length h + k) = h ++ Buffers.release l k.
Proof.
  induction h as [|x h IH]; intros l k; [reflexivity|].
  cbn. rewrite IH. reflexivity.
Qed.

Lemma free_app h l k :
  Buffers.free (Buffers.Block (length h + k)) (h ++ l)
  = option_map (app h) (Buffers.free (Buffers.Block k) l).
Proof.
  unfold Buffers.free. rewrite nth_error_app2 by lia.
  replace (length h + k - length h)%nat with k by lia.
  destruct (nth_error l k) as [[|]|]; try reflexivity.
  cbn. rewrite release_app. reflexivity.
Qed.

Lemma free_fresh_pair h :
  Buffers.free_buffers
    (Buffers.mk_memory (Buffers.Block (length h))
       (Buffers.Block (S (length h))) (h ++ [true; true]))
  = Some (Buffers.mk_memory (Buffers.Block (length h))
            (Buffers.Block (S (length h))) (h ++ [false; false])).
Proof.
  assert (H : forall a b,
             a = (length h + 0)%nat -> b = (length h + 1)%nat ->
             Buffers.free_buffers
               (Buffers.mk_memory (Buffers.Block a) (Buffers.Block b)
                  (h ++ [true; true]))
             = Some (Buffers.mk_memory (Buffers.Block a) (Buffers.Block b)
                       (h ++ [false; false]))).
  { intros a b -> ->. unfold Buffers.free_buffers.
    cbn [Buffers.threads_ptr Buffers.cpuloads_ptr Buffers.blocks
         Buffers.is_null].
    rewrite free_app.
    change (Buffers.free (Buffers.Block 0) [true; true])
      with (Some [false; true]).
    cbn [option_map]. rewrite free_app. reflexivity. }
  apply H; lia.
Qed.

(** X22: the ways out of the start-up of [main].  The start-up never
    makes an undefined [free].  A core count below 1 is returned as the
    exit status before anything is allocated.  When a [malloc] fails
    [main] returns without releasing what the other [malloc] gave it.
    When the arguments are refused both buffers have been released, once
    each.  Otherwise [main] goes on to the spawn loop with both buffers
    allocated and the globals as the arguments set them. *)
Theorem ways_out_of_the_start_up :
  forall nproc ok_threads ok_cpuloads args h,
    exists out m,
      Buffers.main_startup nproc ok_threads ok_cpuloads args h = Some (out, m)
      /\ match out with
         | Buffers.ReturnCount n =>
             n = nproc /\ nproc < 1 /\ Buffers.blocks m = h
         | Buffers.ReturnENOMEM =>
             1 <= nproc
             /\ ok_threads && ok_cpuloads = false
             /\ Buffers.allocated (Buffers.threads_ptr m) (Buffers.blocks m)
                = ok_threads
             /\ Buffers.allocated (Buffers.cpuloads_ptr m) (Buffers.blocks m)
                = ok_cpuloads
         | Buffers.ReturnEINVAL =>
             1 <= nproc
             /\ main_init nproc args = inr EINVAL
             /\ Buffers.blocks m = h ++ [false; false]
         | Buffers.Spawn g =>
             1 <= nproc
             /\ main_init nproc args = inl g
             /\ Buffers.blocks m = h ++ [true; true]
             /\ Buffers.threads_ptr m = Buffers.Block (length h)
             /\ Buffers.cpuloads_ptr m = Buffers.Block (S (length h))
         end.
Proof.
  intros nproc ok_threads ok_cpuloads args h. unfold Buffers.main_startup.
  destruct (nproc <? 1) eqn:Hn.
  - eexists _, _. split; [reflexivity|]. cbn. repeat split. lia.
  - apply Z.ltb_ge in Hn.
    destruct ok_threads, ok_cpuloads; cbn [Buffers.malloc Buffers.is_null orb].
    + rewrite length_app. cbn [length]. rewrite <- app_assoc. cbn [app].
      replace (length h + 1)%nat with (S (length h)) by lia.
      destruct (main_init nproc args) as [g|[]] eqn:Hi.
      * eexists _, _. split; [reflexivity|]. cbn. repeat split. exact Hn.
      * rewrite free_fresh_pair.
        eexists _, _. split; [reflexivity|]. cbn. repeat split. exact Hn.
    + eexists _, _. split; [reflexivity|].
      cbn [Buffers.allocated Buffers.threads_ptr Buffers.cpuloads_ptr
           Buffers.blocks andb].
      repeat split; try exact Hn.
      rewrite app_nth2 by lia. rewrite Nat.sub_diag. reflexivity.
    + eexists _, _. split; [reflexivity|].
      cbn [Buffers.allocated Buffers.threads_ptr Buffers.cpuloads_ptr
           Buffers.blocks andb].
      repeat split; try exact Hn.
      rewrite app_nth2 by lia. rewrite Nat.sub_diag. reflexivity.
    + eexists _, _. split; [reflexivity|]. cbn. repeat split. exact Hn.
Qed.
